(** * Pairing core of appium-ios-remotexpc: TLV8, OPACK2 and the SRP client

    A shallow embedding of
    - [encodeTLV8]            (TLV8 fragmenting encoder),
    - [Opack2]                (OPACK2 encoder),
    - [SRPClient]             (SRP-6a client of Apple's Pair-Setup),
    together with the properties stated about them.

    Conventions.  A Node [Buffer] is a list of bytes.  A JavaScript [bigint]
    is a [Z]; the [%] operator on bigints truncates towards zero and is
    [Z.rem].  A JavaScript [number] is an IEEE-754 binary64 value
    ([spec_float]).  A method of the mutable [SRPClient] object is a function
    from the object's state to a result and the state it leaves behind;
    the state survives a [throw]. *)

From Equations Require Import Equations.
From Stdlib Require Import String Ascii ZArith List Bool Lia Arith.
From Stdlib Require Import Strings.Byte Floats.SpecFloat.
From Stdlib Require QArith.
Import ListNotations.

Set Warnings "-register-all".
Open Scope Z_scope.

(** ** Bytes and buffers *)

Definition Buffer := list byte.

(** Value of a byte, as the JavaScript number read from a buffer. *)
Definition byte_val (b : byte) : Z := Z.of_N (Byte.to_N b).

(** Storing a JavaScript integer into a buffer cell keeps its low 8 bits. *)
Definition u8 (z : Z) : byte :=
  match Byte.of_N (Z.to_N (z mod 256)) with
  | Some b => b
  | None => x00
  end.

(** [Buffer.from([v0, v1, ...])]. *)
Definition Buffer_from (values : list Z) : Buffer := map u8 values.

(** [Buffer.concat(parts)]. *)
Definition Buffer_concat (parts : list Buffer) : Buffer := concat parts.

(** [buf.fill(value)]. *)
Definition Buffer_fill (buf : Buffer) (value : Z) : Buffer :=
  map (fun _ => u8 value) buf.

(** [buf.length]. *)
Definition Buffer_length (buf : Buffer) : Z := Z.of_nat (length buf).

(** [buf.subarray(start, end)] for [0 <= start <= end]; the end index is
    clamped to the buffer. *)
Definition subarray (buf : Buffer) (start stop : Z) : Buffer :=
  firstn (Z.to_nat (stop - start)) (skipn (Z.to_nat start) buf).

(** Little-endian and big-endian layouts of the low [width] bytes of [n],
    as the [write(Big)UInt..LE] and [writeUInt..BE] methods of [Buffer] store them. *)
Fixpoint le_bytes (width : nat) (n : Z) : Buffer :=
  match width with
  | O => []
  | S w => u8 n :: le_bytes w (Z.shiftr n 8)
  end.

Definition be_bytes (width : nat) (n : Z) : Buffer := rev (le_bytes width n).

(** Readers of the two layouts. *)
Definition le_value (buf : Buffer) : Z :=
  fold_right (fun b acc => byte_val b + 256 * acc) 0 buf.

Definition be_value (buf : Buffer) : Z :=
  fold_left (fun acc b => acc * 256 + byte_val b) buf 0.

(** ** Strings

    A JavaScript string whose code units are all below 256 is a [string];
    [utf8_encode] is [Buffer.from(str, 'utf8')] on such strings, and [trim]
    is [String.prototype.trim]. *)

Definition char_code (c : ascii) : Z := Z.of_N (N_of_ascii c).

Definition utf8_char (c : ascii) : Buffer :=
  if char_code c <? 128 then [u8 (char_code c)]
  else [u8 (Z.lor 192 (Z.shiftr (char_code c) 6));
        u8 (Z.lor 128 (Z.land (char_code c) 63))].

Definition utf8_encode (str : string) : Buffer :=
  flat_map utf8_char (list_ascii_of_string str).

(** White space and line terminators among the code units below 256:
    TAB, LF, VT, FF, CR, SP and NBSP. *)
Definition is_white_space (c : ascii) : bool :=
  let n := char_code c in
  ((9 <=? n) && (n <=? 13)) || (n =? 32) || (n =? 160).

Fixpoint trimStart_chars (cs : list ascii) : list ascii :=
  match cs with
  | c :: rest => if is_white_space c then trimStart_chars rest else cs
  | [] => []
  end.

Definition trim (str : string) : string :=
  string_of_list_ascii
    (rev (trimStart_chars (rev (trimStart_chars (list_ascii_of_string str))))).

(** [!str] on a string: only the empty string is falsy. *)
Definition string_is_empty (str : string) : bool :=
  match str with
  | EmptyString => true
  | _ => false
  end.

(** ** Errors

    The sources throw [SRPError] and [AppleTVError] objects that differ only
    in their message.  A message template is a constructor; the interpolated
    values are its arguments. *)

Inductive SRPErrorMessage :=
| UsernameCannotBeEmpty      (* 'Username cannot be empty' *)
| PasswordCannotBeEmpty      (* 'Password cannot be empty' *)
| SaltCannotBeEmpty          (* 'Salt cannot be empty' *)
| ServerPublicKeyWrongSize (expected got : Z)
                             (* 'Server public key must be .. bytes, got ..' *)
| ServerPublicKeyOutOfRange  (* 'Invalid server public key B: must be in range (1, N-1)' *)
| ServerPublicKeyDivisibleByN (* 'Invalid server public key B: divisible by N' *)
| ClientKeysNotGeneratedYet  (* 'Client keys not generated yet. Set salt and ..' *)
| CannotComputeProof         (* 'Cannot compute proof: salt, session key, and ..' *)
| SessionKeyNotComputed      (* 'Session key not computed' *)
| KeyGenerationFailed (attempts : Z)
                             (* 'Failed to generate secure client keys after .. attempts' *)
| SaltAndServerKeyFirst      (* 'Salt and server public key must be set first' *)
| ClientKeysNotGenerated     (* 'Client keys not generated' *)
| PasswordMustBeSet          (* 'Password must be set before performing operations. ..' *)
| ClientDisposed.            (* 'SRP client has been disposed' *)

Inductive AppleTVErrorMessage :=
| UnsupportedType                      (* 'Unsupported type for OPACK2 serialization: ..' *)
| NumberTooLarge (num : spec_float)    (* 'Number too large for OPACK2 encoding: ..' *)
| StringTooLong (length : Z)           (* 'String too long for OPACK2 encoding: .. bytes' *)
| ByteArrayTooLong (length : Z).       (* 'Byte array too long for OPACK2 encoding: .. bytes' *)

Inductive Error :=
| SRPError (message : SRPErrorMessage)
| AppleTVError (message : AppleTVErrorMessage)
| RangeError.   (* a value outside the range of the cell it is written to *)

Inductive result (A : Type) :=
| Ok (value : A)
| Throw (e : Error).
Arguments Ok {A} value.
Arguments Throw {A} e.

Definition bind_result {A B} (r : result A) (f : A -> result B) : result B :=
  match r with
  | Ok a => f a
  | Throw e => Throw e
  end.

(** The two error kinds the SRP client's callers tell apart. *)
Definition is_use_after_dispose (e : Error) : bool :=
  match e with
  | SRPError ClientDisposed => true
  | _ => false
  end.

Definition is_SRPError (e : Error) : bool :=
  match e with
  | SRPError _ => true
  | _ => false
  end.

(** ** TLV8 encoder *)

Module TLV8.

Definition TLV8_MAX_FRAGMENT_SIZE : Z := 255.

Record TLV8Item := { type : Z; data : Buffer }.

(** The [while (offset < data.length)] loop of [encodeTLV8]; [chunks] is the
    array the fragments are pushed to. *)
Equations? fragment_loop (type : Z) (data : Buffer) (offset : Z)
    (chunks : list Buffer) : list Buffer
    by wf (Z.to_nat (Buffer_length data - offset)) lt :=
  fragment_loop type data offset chunks
    with Z_lt_dec offset (Buffer_length data) => {
    | left _ =>
        fragment_loop type data
          (offset + Z.min TLV8_MAX_FRAGMENT_SIZE (Buffer_length data - offset))
          (chunks ++
             [ Buffer_from
                 [type;
                  Z.min TLV8_MAX_FRAGMENT_SIZE (Buffer_length data - offset)];
               subarray data offset
                 (offset +
                  Z.min TLV8_MAX_FRAGMENT_SIZE (Buffer_length data - offset)) ]);
    | right _ => chunks }.
Proof. unfold TLV8_MAX_FRAGMENT_SIZE. lia. Qed.

Definition encodeTLV8 (items : list TLV8Item) : Buffer :=
  Buffer_concat
    (fold_left (fun chunks item => fragment_loop (type item) (data item) 0 chunks)
       items []).

(** *** Records of the wire format

    A TLV8 stream is a sequence of records [type:1][length:1][payload:length].
    [parse_records] reads a byte sequence as such a sequence; it is the view
    under which the properties below speak of "the records of the output". *)

Record TLV8Record := { rec_type : byte; rec_length : byte; rec_payload : Buffer }.

Equations? parse_records (buf : Buffer) : option (list TLV8Record)
    by wf (length buf) lt :=
  parse_records [] := Some [];
  parse_records [_] := None;
  parse_records (t :: l :: rest)
    with le_dec (Z.to_nat (byte_val l)) (length rest) => {
    | left _ =>
        option_map
          (cons {| rec_type := t; rec_length := l;
                   rec_payload := firstn (Z.to_nat (byte_val l)) rest |})
          (parse_records (skipn (Z.to_nat (byte_val l)) rest));
    | right _ => None }.
Proof. rewrite length_skipn. simpl. lia. Qed.

(** Payload bytes of the records bearing type [t], in order. *)
Definition payload_of_type (t : Z) (recs : list TLV8Record) : Buffer :=
  concat (map rec_payload
            (filter (fun r => Z.eqb (byte_val (rec_type r)) t) recs)).

(** "The final record's length byte equals [|d| mod 255]": the output for
    the item is a sequence of records whose last one has that length byte. *)
Definition final_length_is_remainder (item : TLV8Item) : Prop :=
  exists recs r,
    parse_records (encodeTLV8 [item]) = Some (recs ++ [r]) /\
    byte_val (rec_length r) = Buffer_length (data item) mod 255.

End TLV8.

(** ** OPACK2 encoder *)

Module Opack2.

Definition OPACK2_NULL : Z := 0x03.
Definition OPACK2_TRUE : Z := 0x01.
Definition OPACK2_FALSE : Z := 0x02.
Definition OPACK2_SMALL_INT_OFFSET : Z := 8.
Definition OPACK2_SMALL_INT_MAX : Z := 0x27.
Definition OPACK2_SMALL_STRING_MAX : Z := 0x20.
Definition OPACK2_SMALL_BYTES_MAX : Z := 0x20.
Definition OPACK2_SMALL_ARRAY_MAX : Z := 15.
Definition OPACK2_SMALL_DICT_MAX : Z := 15.

Definition OPACK2_INT8_MARKER : Z := 0x30.
Definition OPACK2_INT32_MARKER : Z := 0x32.
Definition OPACK2_INT64_MARKER : Z := 0x33.
Definition OPACK2_FLOAT_MARKER : Z := 0x35.

Definition OPACK2_SMALL_STRING_BASE : Z := 0x40.
Definition OPACK2_STRING_8BIT_LEN_MARKER : Z := 0x61.
Definition OPACK2_STRING_16BIT_LEN_MARKER : Z := 0x62.
Definition OPACK2_STRING_32BIT_LEN_MARKER : Z := 0x63.

Definition OPACK2_SMALL_BYTES_BASE : Z := 0x70.
Definition OPACK2_BYTES_8BIT_LEN_MARKER : Z := 0x91.
Definition OPACK2_BYTES_16BIT_LEN_MARKER : Z := 0x92.
Definition OPACK2_BYTES_32BIT_LEN_MARKER : Z := 0x93.

Definition OPACK2_SMALL_ARRAY_BASE : Z := 0xd0.
Definition OPACK2_VARIABLE_ARRAY_MARKER : Z := 0xdf.

Definition OPACK2_SMALL_DICT_BASE : Z := 0xe0.
Definition OPACK2_VARIABLE_DICT_MARKER : Z := 0xef.

Definition OPACK2_UINT8_MAX : Z := 0xff.
Definition OPACK2_UINT16_MAX : Z := 0xffff.
Definition OPACK2_UINT32_MAX : Z := 0xffffffff.

(** [Number.MAX_SAFE_INTEGER] *)
Definition MAX_SAFE_INTEGER : Z := 2 ^ 53 - 1.

(** *** JavaScript numbers *)

Definition JSNumber := spec_float.

(** The mathematical value of [num] when it is a whole number
    ([Number.isInteger(num)]), and nothing otherwise: NaN, the infinities
    and values with a fractional part.  Both zeros have value 0. *)
Definition integer_value (num : JSNumber) : option Z :=
  match num with
  | S754_zero _ => Some 0
  | S754_finite s m e =>
      if 0 <=? e then Some (cond_Zopp s (Zpos m * 2 ^ e))
      else if Zpos m mod 2 ^ (- e) =? 0
           then Some (cond_Zopp s (Zpos m / 2 ^ (- e)))
           else None
  | S754_infinity _ | S754_nan => None
  end.

Definition Number_isInteger (num : JSNumber) : bool :=
  match integer_value num with
  | Some _ => true
  | None => false
  end.

(** The value of a whole number, on which [<], [<=] and [+] are exact. *)
Definition Number_toZ (num : JSNumber) : Z :=
  match integer_value num with
  | Some n => n
  | None => 0
  end.

(** The number an integer literal denotes. *)
Definition Number_of_Z (z : Z) : JSNumber := binary_normalize 53 1024 z 0 false.

(** Conversion of a number to IEEE-754 binary32, rounding to nearest even,
    as a store into a [Float32Array] cell performs it. *)
Definition fround (num : JSNumber) : spec_float :=
  match num with
  | S754_finite s m e => binary_round 24 128 s m e
  | _ => num
  end.

(** The 32-bit pattern of a binary32 value: sign, biased exponent, fraction. *)
Definition float32_bits (x : spec_float) : Z :=
  match x with
  | S754_zero s => if s then 0x80000000 else 0
  | S754_infinity s => (if s then 0x80000000 else 0) + 0x7f800000
  | S754_nan => 0x7fc00000
  | S754_finite s m e =>
      (if s then 0x80000000 else 0) +
      (if 2 ^ 23 <=? Zpos m
       then (e + 150) * 2 ^ 23 + (Zpos m - 2 ^ 23)
       else Zpos m)
  end.

(** [buf.writeFloatLE(num, offset)]: the four bytes stored. *)
Definition writeFloatLE (num : JSNumber) : Buffer :=
  le_bytes 4 (float32_bits (fround num)).

(** [buf.writeUInt16BE], [buf.writeUInt32BE], [buf.writeUInt32LE] and
    [buf.writeBigUInt64LE]: the bytes stored; Node throws a range error when
    the value does not fit the cell. *)
Definition writeUInt16BE (value : Z) : result Buffer :=
  if (0 <=? value) && (value <=? 0xffff) then Ok (be_bytes 2 value)
  else Throw RangeError.

Definition writeUInt32BE (value : Z) : result Buffer :=
  if (0 <=? value) && (value <=? 0xffffffff) then Ok (be_bytes 4 value)
  else Throw RangeError.

Definition writeUInt32LE (value : Z) : result Buffer :=
  if (0 <=? value) && (value <=? 0xffffffff) then Ok (le_bytes 4 value)
  else Throw RangeError.

Definition writeBigUInt64LE (value : Z) : result Buffer :=
  if (0 <=? value) && (value <? 2 ^ 64) then Ok (le_bytes 8 value)
  else Throw RangeError.

(** *** Values *)

Inductive SerializableValue :=
| VNull
| VUndefined
| VBoolean (b : bool)
| VNumber (num : JSNumber)
| VString (str : string)
| VBuffer (bytes : Buffer)
| VArray (arr : list SerializableValue)
| VObject (entries : list (string * SerializableValue)).
  (* an object, given by its [Object.entries] in their order *)

Definition encodeNumber (num : JSNumber) : result Buffer :=
  if negb (Number_isInteger num) || (Number_toZ num <? 0) then
    Ok (u8 OPACK2_FLOAT_MARKER :: writeFloatLE num)
  else
    let n := Number_toZ num in
    if n <=? OPACK2_SMALL_INT_MAX then
      Ok (Buffer_from [n + OPACK2_SMALL_INT_OFFSET])
    else if n <=? OPACK2_UINT8_MAX then
      Ok (Buffer_from [OPACK2_INT8_MARKER; n])
    else if n <=? OPACK2_UINT32_MAX then
      bind_result (writeUInt32LE n) (fun cells =>
      Ok (u8 OPACK2_INT32_MARKER :: cells))
    else if n <=? MAX_SAFE_INTEGER then
      bind_result (writeBigUInt64LE n) (fun cells =>
      Ok (u8 OPACK2_INT64_MARKER :: cells))
    else Throw (AppleTVError (NumberTooLarge num)).

Definition encodeString (str : string) : result Buffer :=
  let encoded := utf8_encode str in
  let length := Buffer_length encoded in
  if length <=? OPACK2_SMALL_STRING_MAX then
    Ok (Buffer_concat [Buffer_from [OPACK2_SMALL_STRING_BASE + length]; encoded])
  else if length <=? OPACK2_UINT8_MAX then
    Ok (Buffer_concat
          [Buffer_from [OPACK2_STRING_8BIT_LEN_MARKER; length]; encoded])
  else if length <=? OPACK2_UINT16_MAX then
    bind_result (writeUInt16BE length) (fun cells =>
    Ok (Buffer_concat [u8 OPACK2_STRING_16BIT_LEN_MARKER :: cells; encoded]))
  else if length <=? OPACK2_UINT32_MAX then
    bind_result (writeUInt32BE length) (fun cells =>
    Ok (Buffer_concat [u8 OPACK2_STRING_32BIT_LEN_MARKER :: cells; encoded]))
  else Throw (AppleTVError (StringTooLong length)).

Definition encodeBytes (bytes : Buffer) : result Buffer :=
  let length := Buffer_length bytes in
  if length <=? OPACK2_SMALL_BYTES_MAX then
    Ok (Buffer_concat [Buffer_from [OPACK2_SMALL_BYTES_BASE + length]; bytes])
  else if length <=? OPACK2_UINT8_MAX then
    Ok (Buffer_concat
          [Buffer_from [OPACK2_BYTES_8BIT_LEN_MARKER; length]; bytes])
  else if length <=? OPACK2_UINT16_MAX then
    bind_result (writeUInt16BE length) (fun cells =>
    Ok (Buffer_concat [u8 OPACK2_BYTES_16BIT_LEN_MARKER :: cells; bytes]))
  else if length <=? OPACK2_UINT32_MAX then
    bind_result (writeUInt32BE length) (fun cells =>
    Ok (Buffer_concat [u8 OPACK2_BYTES_32BIT_LEN_MARKER :: cells; bytes]))
  else Throw (AppleTVError (ByteArrayTooLong length)).

(** The loops [for (const item of arr) parts.push(this.encode(item))] and
    [for (const [key, value] of entries) { parts.push(this.encode(key));
    parts.push(this.encode(value)) }], over the dispatcher [encode]. *)
Definition push_items (encode : SerializableValue -> result Buffer) :=
  fix loop (arr : list SerializableValue) (parts : list Buffer)
    : result (list Buffer) :=
    match arr with
    | [] => Ok parts
    | item :: rest =>
        bind_result (encode item) (fun part => loop rest (parts ++ [part]))
    end.

Definition push_entries (encode : SerializableValue -> result Buffer) :=
  fix loop (entries : list (string * SerializableValue)) (parts : list Buffer)
    : result (list Buffer) :=
    match entries with
    | [] => Ok parts
    | (key, value) :: rest =>
        (* [this.encode(key)]: the dispatcher's string case *)
        bind_result (encodeString key) (fun kpart =>
        bind_result (encode value) (fun vpart =>
        loop rest ((parts ++ [kpart]) ++ [vpart])))
    end.

Definition encodeArray_body (encode : SerializableValue -> result Buffer)
    (arr : list SerializableValue) : result Buffer :=
  let length := Z.of_nat (length arr) in
  if length <=? OPACK2_SMALL_ARRAY_MAX then
    bind_result
      (push_items encode arr [Buffer_from [OPACK2_SMALL_ARRAY_BASE + length]])
      (fun parts => Ok (Buffer_concat parts))
  else
    bind_result
      (push_items encode arr [Buffer_from [OPACK2_VARIABLE_ARRAY_MARKER]])
      (fun parts => Ok (Buffer_concat (parts ++ [Buffer_from [OPACK2_NULL]]))).

Definition encodeDict_body (encode : SerializableValue -> result Buffer)
    (entries : list (string * SerializableValue)) : result Buffer :=
  let length := Z.of_nat (length entries) in
  if length <? OPACK2_SMALL_DICT_MAX then
    bind_result
      (push_entries encode entries
         [Buffer_from [OPACK2_SMALL_DICT_BASE + length]])
      (fun parts => Ok (Buffer_concat parts))
  else
    bind_result
      (push_entries encode entries [Buffer_from [OPACK2_VARIABLE_DICT_MARKER]])
      (fun parts =>
         Ok (Buffer_concat (parts ++ [Buffer_from [OPACK2_NULL; OPACK2_NULL]]))).

Fixpoint encode (obj : SerializableValue) : result Buffer :=
  match obj with
  | VNull | VUndefined => Ok (Buffer_from [OPACK2_NULL])
  | VBoolean b => Ok (Buffer_from [if b then OPACK2_TRUE else OPACK2_FALSE])
  | VNumber num => encodeNumber num
  | VString str => encodeString str
  | VBuffer bytes => encodeBytes bytes
  | VArray arr => encodeArray_body encode arr
  | VObject entries => encodeDict_body encode entries
  end.

Definition encodeArray (arr : list SerializableValue) : result Buffer :=
  encodeArray_body encode arr.

Definition encodeDict (entries : list (string * SerializableValue))
    : result Buffer :=
  encodeDict_body encode entries.

Definition dumps (obj : SerializableValue) : result Buffer := encode obj.

(** [encodes item part]: the element encodes, to [part]. *)
Definition encodes (item : SerializableValue) (part : Buffer) : Prop :=
  encode item = Ok part.

(** [encodes_entry entry part]: the key and the value of the entry encode, to
    the two halves of [part]. *)
Definition encodes_entry (entry : string * SerializableValue)
    (part : Buffer * Buffer) : Prop :=
  encode (VString (fst entry)) = Ok (fst part) /\
  encode (snd entry) = Ok (snd part).

End Opack2.

(** ** SRP client *)

Module SRP.

(** RFC 5054 3072-bit safe prime. *)
Definition SRP_PRIME_3072 : Z :=
  0xFFFFFFFFFFFFFFFFC90FDAA22168C234C4C6628B80DC1CD129024E088A67CC74020BBEA63B139B22514A08798E3404DDEF9519B3CD3A431B302B0A6DF25F14374FE1356D6D51C245E485B576625E7EC6F44C42E9A637ED6B0BFF5CB6F406B7EDEE386BFB5A899FA5AE9F24117C4B1FE649286651ECE45B3DC2007CB8A163BF0598DA48361C55D39A69163FA8FD24CF5F83655D23DCA3AD961C62F356208552BB9ED529077096966D670C354E4ABC9804F1746C08CA18217C32905E462E36CE3BE39E772C180E86039B2783A2EC07A28FB5C55DF06F4C52C9DE2BCBF6955817183995497CEA956AE515D2261898FA051015728E5A8AAAC42DAD33170D04507A33A85521ABDF1CBA64ECFB850458DBEF0A8AEA71575D060C7DB3970F85A6E1E4C7ABF5AE8CDB0933D71E8C94E04A25619DCEE3D2261AD2EE6BF12FFA06D98A0864D87602733EC86A64521F2B18177B200CBBE117577A615D6C770988C0BAD946E208E24FA074E5AB3143DB5BFCE0FD108E4B82D120A93AD2CAFFFFFFFFFFFFFFFF.

Definition SRP_GENERATOR : Z := 5.
Definition SRP_USERNAME : string := "Pair-Setup".
Definition SRP_KEY_LENGTH_BYTES : Z := 384.
Definition SRP_PRIVATE_KEY_BITS : Z := 256.

(** *** Buffer utilities *)

(** Modelled from the spec: [bufferToBigInt] of [utils/buffer-utils], which is
    not among the sources: "non-negative integer, big-endian interpretation". *)
Definition bufferToBigInt (buf : Buffer) : Z := be_value buf.

(** Modelled from the spec: [bigIntToBuffer] of [utils/buffer-utils], which is
    not among the sources: "[width]-byte big-endian representation,
    left-zero-padded; fails if [n] does not fit". *)
Definition bigIntToBuffer (n : Z) (width : Z) : result Buffer :=
  if (0 <=? n) && (n <? 256 ^ width) then Ok (be_bytes (Z.to_nat width) n)
  else Throw RangeError.

(** Modelled from the spec: [modPow] of [utils/buffer-utils], which is not
    among the sources: "[base^exp mod mod]".  The operands are bigints and
    the reduction is the remainder [%] of the language, whose result has the
    sign of the dividend: on a negative base the result is not the residue
    in [[0, mod)], which is why "a naive signed modulus will produce the
    wrong [S]" and the caller folds the base first. *)
Definition modPow (base exp mod_ : Z) : Z := Z.rem (base ^ exp) mod_.

(** Byte-wise exclusive or of two buffers of the same length. *)
Fixpoint xor_buffers (x y : Buffer) : Buffer :=
  match x, y with
  | a :: x', b :: y' => u8 (Z.lxor (byte_val a) (byte_val b)) :: xor_buffers x' y'
  | _, _ => []
  end.

(** The source of randomness: [randomBytes i] is the buffer the [i]-th call
    of [crypto.randomBytes] returns within one operation of the client. *)
Definition RandomSource := nat -> Buffer.

Section Client.

(** SHA-512 of [node:crypto], through [hash] of [crypto-utils]. *)
Variable hash : Buffer -> Buffer.

(** Modelled from the spec: [calculateK], [calculateU], [calculateX] and
    [calculateM1] of [crypto-utils], which is not among the sources:
    "k = H(PAD(N) || PAD(g))", "u = H(PAD(A) || PAD(B))",
    "x = H(salt || H(username || ":" || password))" and
    "M1 = H(H(PAD(N)) XOR H(PAD(g)) || H(username) || salt || PAD(A) ||
    PAD(B) || K)", each hash read as an integer where an integer is meant. *)
Definition calculateK (N g keyLength : Z) : result Z :=
  bind_result (bigIntToBuffer N keyLength) (fun padN =>
  bind_result (bigIntToBuffer g keyLength) (fun padg =>
  Ok (bufferToBigInt (hash (padN ++ padg))))).

Definition calculateU (A B keyLength : Z) : result Z :=
  bind_result (bigIntToBuffer A keyLength) (fun padA =>
  bind_result (bigIntToBuffer B keyLength) (fun padB =>
  Ok (bufferToBigInt (hash (padA ++ padB))))).

Definition calculateX (salt : Buffer) (username password : string) : Z :=
  bufferToBigInt
    (hash (salt ++
           hash (utf8_encode username ++ utf8_encode ":" ++ utf8_encode password))).

Definition calculateM1 (N g : Z) (username : string) (salt : Buffer)
    (A B : Z) (K : Buffer) : result Buffer :=
  bind_result (bigIntToBuffer N SRP_KEY_LENGTH_BYTES) (fun padN =>
  bind_result (bigIntToBuffer g SRP_KEY_LENGTH_BYTES) (fun padg =>
  bind_result (bigIntToBuffer A SRP_KEY_LENGTH_BYTES) (fun padA =>
  bind_result (bigIntToBuffer B SRP_KEY_LENGTH_BYTES) (fun padB =>
  Ok (hash (xor_buffers (hash padN) (hash padg) ++
            hash (utf8_encode username) ++ salt ++ padA ++ padB ++ K)))))).

(** *** The client object *)

Definition ZERO : Z := 0.
Definition ONE : Z := 1.
Definition MAX_KEY_GENERATION_ATTEMPTS : Z := 100.
Definition N : Z := SRP_PRIME_3072.
Definition g : Z := SRP_GENERATOR.
Definition N_MINUS_ONE : Z := N - ONE.

Record SRPClient := {
  k : Z;
  username : string;
  password : string;
  _salt : option Buffer;
  _a : Z;
  _A : Z;
  _B : option Z;
  _S : option Z;
  _K : option Buffer;
  keysGenerated : bool;
  disposed : bool
}.

(** A method: from the state of [this] to its outcome and the state left. *)
Definition Method (R : Type) := SRPClient -> result R * SRPClient.

Definition ret {R} (r : R) : Method R := fun this => (Ok r, this).
Definition throw {R} (e : Error) : Method R := fun this => (Throw e, this).
Definition bind {R T} (m : Method R) (f : R -> Method T) : Method T :=
  fun this =>
    match m this with
    | (Ok r, this') => f r this'
    | (Throw e, this') => (Throw e, this')
    end.
Definition read {R} (field : SRPClient -> R) : Method R :=
  fun this => (Ok (field this), this).
Definition update (f : SRPClient -> SRPClient) : Method unit :=
  fun this => (Ok tt, f this).
Definition lift {R} (r : result R) : Method R := fun this => (r, this).

Notation "x <- m ;; f" := (bind m (fun x => f))
  (at level 61, m at next level, right associativity).
Notation "m ;;; f" := (bind m (fun _ => f))
  (at level 61, right associativity).

(** Assignments to the fields of [this]. *)
Definition with_identity (u p : string) (c : SRPClient) : SRPClient :=
  {| k := k c; username := u; password := p; _salt := _salt c; _a := _a c;
     _A := _A c; _B := _B c; _S := _S c; _K := _K c;
     keysGenerated := keysGenerated c; disposed := disposed c |}.
Definition with_password (p : string) (c : SRPClient) : SRPClient :=
  with_identity (username c) p c.
Definition with_salt (v : option Buffer) (c : SRPClient) : SRPClient :=
  {| k := k c; username := username c; password := password c; _salt := v;
     _a := _a c; _A := _A c; _B := _B c; _S := _S c; _K := _K c;
     keysGenerated := keysGenerated c; disposed := disposed c |}.
Definition with_a (v : Z) (c : SRPClient) : SRPClient :=
  {| k := k c; username := username c; password := password c;
     _salt := _salt c; _a := v; _A := _A c; _B := _B c; _S := _S c;
     _K := _K c; keysGenerated := keysGenerated c; disposed := disposed c |}.
Definition with_A (v : Z) (c : SRPClient) : SRPClient :=
  {| k := k c; username := username c; password := password c;
     _salt := _salt c; _a := _a c; _A := v; _B := _B c; _S := _S c;
     _K := _K c; keysGenerated := keysGenerated c; disposed := disposed c |}.
Definition with_B (v : option Z) (c : SRPClient) : SRPClient :=
  {| k := k c; username := username c; password := password c;
     _salt := _salt c; _a := _a c; _A := _A c; _B := v; _S := _S c;
     _K := _K c; keysGenerated := keysGenerated c; disposed := disposed c |}.
Definition with_S (v : option Z) (c : SRPClient) : SRPClient :=
  {| k := k c; username := username c; password := password c;
     _salt := _salt c; _a := _a c; _A := _A c; _B := _B c; _S := v;
     _K := _K c; keysGenerated := keysGenerated c; disposed := disposed c |}.
Definition with_K (v : option Buffer) (c : SRPClient) : SRPClient :=
  {| k := k c; username := username c; password := password c;
     _salt := _salt c; _a := _a c; _A := _A c; _B := _B c; _S := _S c;
     _K := v; keysGenerated := keysGenerated c; disposed := disposed c |}.
Definition with_keysGenerated (v : bool) (c : SRPClient) : SRPClient :=
  {| k := k c; username := username c; password := password c;
     _salt := _salt c; _a := _a c; _A := _A c; _B := _B c; _S := _S c;
     _K := _K c; keysGenerated := v; disposed := disposed c |}.
Definition with_disposed (v : bool) (c : SRPClient) : SRPClient :=
  {| k := k c; username := username c; password := password c;
     _salt := _salt c; _a := _a c; _A := _A c; _B := _B c; _S := _S c;
     _K := _K c; keysGenerated := keysGenerated c; disposed := v |}.

(** Truthiness of a [bigint | null] field: [null] and [0n] are falsy. *)
Definition truthy_bigint (v : option Z) : bool :=
  match v with
  | Some b => negb (b =? 0)
  | None => false
  end.

(** Truthiness of a [Buffer | null] field: only [null] is falsy. *)
Definition truthy_buffer (v : option Buffer) : bool :=
  match v with
  | Some _ => true
  | None => false
  end.

(** [new SRPClient()] *)
Definition constructor : result SRPClient :=
  bind_result (calculateK N g SRP_KEY_LENGTH_BYTES) (fun kv =>
  Ok {| k := kv; username := SRP_USERNAME; password := "";
        _salt := None; _a := ZERO; _A := ZERO; _B := None; _S := None;
        _K := None; keysGenerated := false; disposed := false |}).

Definition throwIfDisposed : Method unit :=
  d <- read disposed ;;
  if d then throw (SRPError ClientDisposed) else ret tt.

Definition validateIdentitySet : Method unit :=
  p <- read password ;;
  if string_is_empty p then throw (SRPError PasswordMustBeSet) else ret tt.

Definition setIdentity (username password : string) : Method unit :=
  throwIfDisposed ;;;
  if string_is_empty (trim username) then
    throw (SRPError UsernameCannotBeEmpty)
  else if string_is_empty password then
    throw (SRPError PasswordCannotBeEmpty)
  else update (with_identity (trim username) password).

(** The [while (attempts < MAX_KEY_GENERATION_ATTEMPTS)] loop of
    [generateClientKeys]; [remaining] counts the iterations left,
    [MAX_KEY_GENERATION_ATTEMPTS - attempts]. *)
Fixpoint generateClientKeys_loop (randomBytes : RandomSource)
    (remaining attempts : nat) : Method unit :=
  match remaining with
  | O => throw (SRPError (KeyGenerationFailed MAX_KEY_GENERATION_ATTEMPTS))
  | S remaining' =>
      let randomBits := randomBytes attempts in
      update (with_a (bufferToBigInt randomBits)) ;;;
      a <- read _a ;;
      if a >=? N then
        generateClientKeys_loop randomBytes remaining' (S attempts)
      else if a =? ZERO then
        generateClientKeys_loop randomBytes remaining' (S attempts)
      else
        update (with_A (modPow g a N)) ;;;
        A <- read _A ;;
        if (A <=? ONE) || (A >=? N_MINUS_ONE) then
          generateClientKeys_loop randomBytes remaining' (S attempts)
        else ret tt
  end.

Definition generateClientKeys (randomBytes : RandomSource) : Method unit :=
  validateIdentitySet ;;;
  generateClientKeys_loop randomBytes
    (Z.to_nat MAX_KEY_GENERATION_ATTEMPTS) O.

Definition generateClientKeysIfReady (randomBytes : RandomSource)
    : Method unit :=
  salt <- read _salt ;;
  B <- read _B ;;
  generated <- read keysGenerated ;;
  if truthy_buffer salt && truthy_bigint B && negb generated then
    generateClientKeys randomBytes ;;;
    update (with_keysGenerated true)
  else ret tt.

(** [get salt()] *)
Definition get_salt : Method (option Buffer) := read _salt.

(** [set salt(value)] *)
Definition set_salt (randomBytes : RandomSource) (value : Buffer)
    : Method unit :=
  throwIfDisposed ;;;
  if Buffer_length value =? 0 then throw (SRPError SaltCannotBeEmpty)
  else
    update (with_salt (Some value)) ;;;
    generateClientKeysIfReady randomBytes.

(** [get serverPublicKey()] *)
Definition get_serverPublicKey : Method (option Buffer) :=
  B <- read _B ;;
  match B with
  | Some b =>
      if truthy_bigint B then
        buf <- lift (bigIntToBuffer b SRP_KEY_LENGTH_BYTES) ;; ret (Some buf)
      else ret None
  | None => ret None
  end.

(** [set serverPublicKey(value)] *)
Definition set_serverPublicKey (randomBytes : RandomSource) (value : Buffer)
    : Method unit :=
  throwIfDisposed ;;;
  if negb (Buffer_length value =? SRP_KEY_LENGTH_BYTES) then
    throw (SRPError (ServerPublicKeyWrongSize SRP_KEY_LENGTH_BYTES
                       (Buffer_length value)))
  else
    update (with_B (Some (bufferToBigInt value))) ;;;
    let B := bufferToBigInt value in
    if (B <=? ONE) || (B >=? N_MINUS_ONE) then
      throw (SRPError ServerPublicKeyOutOfRange)
    else if Z.rem B N =? ZERO then
      throw (SRPError ServerPublicKeyDivisibleByN)
    else generateClientKeysIfReady randomBytes.

(** [get publicKey()] *)
Definition get_publicKey : Method Buffer :=
  throwIfDisposed ;;;
  A <- read _A ;;
  if A =? ZERO then throw (SRPError ClientKeysNotGeneratedYet)
  else lift (bigIntToBuffer A SRP_KEY_LENGTH_BYTES).

Definition computeSharedSecret : Method unit :=
  validateIdentitySet ;;;
  salt <- read _salt ;;
  B <- read _B ;;
  match salt, B with
  | Some salt_, Some B_ =>
      if negb (truthy_bigint B) then throw (SRPError SaltAndServerKeyFirst)
      else
        A <- read _A ;;
        if A =? ZERO then throw (SRPError ClientKeysNotGenerated)
        else
          u <- lift (calculateU A B_ SRP_KEY_LENGTH_BYTES) ;;
          user <- read username ;;
          pass <- read password ;;
          let x := calculateX salt_ user pass in
          let gx := modPow g x N in
          kv <- read k ;;
          let kgx := Z.rem (kv * gx) N in
          let base := B_ - kgx in
          let base := Z.rem (Z.rem base N + N) N in
          a <- read _a ;;
          let exponent := a + u * x in
          update (with_S (Some (modPow base exponent N))) ;;;
          SBuffer <- lift (bigIntToBuffer (modPow base exponent N)
                             SRP_KEY_LENGTH_BYTES) ;;
          update (with_K (Some (hash SBuffer)))
  | _, _ => throw (SRPError SaltAndServerKeyFirst)
  end.

Definition computeProof : Method Buffer :=
  throwIfDisposed ;;;
  validateIdentitySet ;;;
  K <- read _K ;;
  (if negb (truthy_buffer K) then computeSharedSecret else ret tt) ;;;
  salt <- read _salt ;;
  K <- read _K ;;
  B <- read _B ;;
  match salt, K, B with
  | Some salt_, Some K_, Some B_ =>
      if negb (truthy_bigint B) then throw (SRPError CannotComputeProof)
      else
        user <- read username ;;
        A <- read _A ;;
        lift (calculateM1 N g user salt_ A B_ K_)
  | _, _, _ => throw (SRPError CannotComputeProof)
  end.

(** [get sessionKey()] *)
Definition get_sessionKey : Method Buffer :=
  throwIfDisposed ;;;
  validateIdentitySet ;;;
  K <- read _K ;;
  (if negb (truthy_buffer K) then computeSharedSecret else ret tt) ;;;
  K <- read _K ;;
  match K with
  | Some K_ => ret K_
  | None => throw (SRPError SessionKeyNotComputed)
  end.

Definition isReady : Method bool :=
  d <- read disposed ;;
  salt <- read _salt ;;
  B <- read _B ;;
  generated <- read keysGenerated ;;
  ret (negb d && (truthy_buffer salt && truthy_bigint B && generated)).

Definition hasSessionKey : Method bool :=
  d <- read disposed ;;
  K <- read _K ;;
  ret (negb d && truthy_buffer K).

Definition dispose : Method unit :=
  d <- read disposed ;;
  if d then ret tt
  else
    update (with_password "") ;;;
    update (with_a ZERO) ;;;
    K <- read _K ;;
    match K with
    | Some K_ => update (with_K (Some (Buffer_fill K_ 0)))
    | None => ret tt
    end ;;;
    update (with_salt None) ;;;
    update (with_S None) ;;;
    update (with_B None) ;;;
    update (with_disposed true).

End Client.

(** A buffer of random bytes that one turn of the key generation loop
    accepts: the private key [a] it encodes is in [(0, N)] and the public key
    [A = g^a mod N] is in [(1, N - 1)]. *)
Definition valid_private_key (randomBits : Buffer) : bool :=
  let a := bufferToBigInt randomBits in
  negb (a >=? N) && negb (a =? ZERO) &&
  negb ((modPow g a N <=? ONE) || (modPow g a N >=? N_MINUS_ONE)).

(** A client on which [setIdentity('Pair-Setup', '1234')] has been called, with
    a multiplier [k] chosen for the example. *)
Definition example_client : SRPClient :=
  {| k := 3; username := SRP_USERNAME; password := "1234";
     _salt := None; _a := ZERO; _A := ZERO; _B := None; _S := None;
     _K := None; keysGenerated := false; disposed := false |}.

(** The same client holding salt [01], the server key [B = 7] and the client
    keys [a = 1], [A = g^1 = 5]. *)
Definition example_ready_client : SRPClient :=
  {| k := 3; username := SRP_USERNAME; password := "1234";
     _salt := Some [x01]; _a := 1; _A := 5; _B := Some 7; _S := None;
     _K := None; keysGenerated := true; disposed := false |}.

(** A source of randomness whose every draw is the 32-byte encoding of 1. *)
Definition example_random : RandomSource := fun _ => repeat x00 31 ++ [x01].

End SRP.

(** ** Kinds of OPACK2 values *)

Module Opack2Kinds.
Import Opack2.

(** The runtime types the dispatcher [encode] tells apart. *)
Inductive Kind :=
| KNull | KBoolean | KNumber | KString | KBuffer | KArray | KObject.

Definition kind_of (obj : SerializableValue) : Kind :=
  match obj with
  | VNull | VUndefined => KNull
  | VBoolean _ => KBoolean
  | VNumber _ => KNumber
  | VString _ => KString
  | VBuffer _ => KBuffer
  | VArray _ => KArray
  | VObject _ => KObject
  end.

(** The kind a first byte announces, by the marker constants of the encoder:
    [03]; [01], [02]; [08..2F], [30], [32], [33], [35]; [40..60], [61..63];
    [70..90], [91..93]; [D0..DF]; [E0..EF]. *)
Definition kind_of_first_byte (b : byte) : option Kind :=
  let v := byte_val b in
  if v =? OPACK2_NULL then Some KNull
  else if (v =? OPACK2_TRUE) || (v =? OPACK2_FALSE) then Some KBoolean
  else if ((OPACK2_SMALL_INT_OFFSET <=? v) &&
           (v <=? OPACK2_SMALL_INT_MAX + OPACK2_SMALL_INT_OFFSET))
          || (v =? OPACK2_INT8_MARKER) || (v =? OPACK2_INT32_MARKER)
          || (v =? OPACK2_INT64_MARKER) || (v =? OPACK2_FLOAT_MARKER)
       then Some KNumber
  else if (OPACK2_SMALL_STRING_BASE <=? v) &&
          (v <=? OPACK2_STRING_32BIT_LEN_MARKER) then Some KString
  else if (OPACK2_SMALL_BYTES_BASE <=? v) &&
          (v <=? OPACK2_BYTES_32BIT_LEN_MARKER) then Some KBuffer
  else if (OPACK2_SMALL_ARRAY_BASE <=? v) &&
          (v <=? OPACK2_VARIABLE_ARRAY_MARKER) then Some KArray
  else if (OPACK2_SMALL_DICT_BASE <=? v) &&
          (v <=? OPACK2_VARIABLE_DICT_MARKER) then Some KObject
  else None.

End Opack2Kinds.

(** ** Invariant of the SRP client *)

Module SRPInvariant.
Import SRP.

(** Once the keys are generated, the public key is in [(1, N - 1)] and, until
    the client is disposed, it is [g^a mod N] for the private key [a], itself
    in [(0, N)]. *)
Definition keys_invariant (this : SRPClient) : Prop :=
  keysGenerated this = true ->
  1 < _A this < N - 1 /\
  (disposed this = false ->
   0 < _a this < N /\ _A this = modPow g (_a this) N).

End SRPInvariant.

(** ** Syslog service: text of a packet *)

Module Syslog.

(** A JavaScript string, as the sequence of its UTF-16 code units. *)
Definition JSString := list Z.

Definition MIN_PRINTABLE_RATIO : QArith_base.Q := QArith_base.Qmake 1 2.
Definition ASCII_PRINTABLE_MIN : Z := 32.
Definition ASCII_PRINTABLE_MAX : Z := 126.

(** A code unit the regular expression [/[^\x20-\x7E]/g] leaves in place. *)
Definition matches_NON_PRINTABLE_ASCII_REGEX (code : Z) : bool :=
  negb ((0x20 <=? code) && (code <=? 0x7e)).

(** White space and line terminators of [String.prototype.trim]. *)
Definition is_trimmed_unit (code : Z) : bool :=
  ((9 <=? code) && (code <=? 13)) || (code =? 0x20) || (code =? 0xa0) ||
  (code =? 0x1680) || ((0x2000 <=? code) && (code <=? 0x200a)) ||
  (code =? 0x2028) || (code =? 0x2029) || (code =? 0x202f) ||
  (code =? 0x205f) || (code =? 0x3000) || (code =? 0xfeff).

Fixpoint trimStart_units (str : JSString) : JSString :=
  match str with
  | code :: rest => if is_trimmed_unit code then trimStart_units rest else str
  | [] => []
  end.

(** [str.trim()] *)
Definition trim_units (str : JSString) : JSString :=
  rev (trimStart_units (rev (trimStart_units str))).

(** What the service emits to its listeners. *)
Inductive SyslogEvent :=
| MessageEvent (message : JSString).   (* emit('message', message) *)

(** The [for] loop of [isMostlyPrintable] over the code units from index [i]
    on: the early [return true], or the count reached at the end. *)
Fixpoint printable_loop (codes : JSString) (threshold : QArith_base.Q)
    (printableCount : Z) : bool + Z :=
  match codes with
  | [] => inr printableCount
  | code :: rest =>
      if (code >=? ASCII_PRINTABLE_MIN) && (code <=? ASCII_PRINTABLE_MAX) then
        if negb (QArith_base.Qle_bool
                   (QArith_base.inject_Z (printableCount + 1)) threshold)
        then inl true
        else printable_loop rest threshold (printableCount + 1)
      else printable_loop rest threshold printableCount
  end.

Section Service.

(** [buffer.toString('utf8')] of Node: the decoded string of a buffer. *)
Variable toString : Buffer -> JSString.

Definition extractPrintableText (buffer : Buffer) : JSString :=
  filter (fun code => negb (matches_NON_PRINTABLE_ASCII_REGEX code))
    (toString buffer).

(** Numbers are the rationals they denote: the lengths and counts are whole
    numbers, and the products and quotients compared with them are formed
    from whole numbers and one half. *)
Definition isMostlyPrintable (buffer : Buffer) : bool :=
  let str := toString buffer in
  match str with
  | [] => false
  | _ =>
      let totalLength := Z.of_nat (length str) in
      let threshold :=
        QArith_base.Qmult (QArith_base.inject_Z totalLength)
          MIN_PRINTABLE_RATIO in
      match printable_loop str threshold 0 with
      | inl result => result
      | inr printableCount =>
          negb (QArith_base.Qle_bool
                  (QArith_base.Qdiv (QArith_base.inject_Z printableCount)
                     (QArith_base.inject_Z totalLength))
                  MIN_PRINTABLE_RATIO)
      end
  end.

(** [emitMessage(message)], the verbose log aside. *)
Definition emitMessage (message : JSString) : list SyslogEvent :=
  [MessageEvent message].

(** [processTextPacket(packet)], on the payload of the packet. *)
Definition processTextPacket (payload : Buffer) : list SyslogEvent :=
  let message := extractPrintableText payload in
  match trim_units message with
  | [] => []
  | _ => emitMessage message
  end.

(** [emitTextMessage(buffer)] *)
Definition emitTextMessage (buffer : Buffer) : list SyslogEvent :=
  let message := extractPrintableText buffer in
  match trim_units message with
  | [] => []
  | _ => emitMessage message
  end.

End Service.

(** The number of code units in the printable range. *)
Definition count_printable (str : JSString) : Z :=
  Z.of_nat
    (length (filter (fun code => (0x20 <=? code) && (code <=? 0x7e)) str)).

End Syslog.

(** * Properties *)

(** ** Bytes *)

Lemma byte_val_range (b : byte) : 0 <= byte_val b < 256.
Proof.
  unfold byte_val. pose proof (Byte.to_N_bounded b). lia.
Qed.

Lemma byte_val_u8 (z : Z) : byte_val (u8 z) = z mod 256.
Proof.
  unfold u8, byte_val.
  pose proof (Z.mod_pos_bound z 256 eq_refl) as Hr.
  destruct (Byte.of_N (Z.to_N (z mod 256))) as [b|] eqn:E.
  - apply Byte.to_of_N in E. rewrite E. lia.
  - apply Byte.of_N_None_iff in E. lia.
Qed.

Lemma byte_val_u8_small (z : Z) : 0 <= z < 256 -> byte_val (u8 z) = z.
Proof.
  intros H. rewrite byte_val_u8. apply Z.mod_small. exact H.
Qed.

Lemma u8_byte_val (b : byte) : u8 (byte_val b) = b.
Proof.
  unfold u8, byte_val.
  rewrite Z.mod_small by (pose proof (Byte.to_N_bounded b); lia).
  rewrite N2Z.id, Byte.of_to_N. reflexivity.
Qed.

Lemma Buffer_length_nonneg (buf : Buffer) : 0 <= Buffer_length buf.
Proof. unfold Buffer_length. lia. Qed.

Lemma Buffer_length_app (x y : Buffer) :
  Buffer_length (x ++ y) = Buffer_length x + Buffer_length y.
Proof. unfold Buffer_length. rewrite length_app. lia. Qed.

(** ** Fixed-width layouts *)

Lemma length_le_bytes (w : nat) (n : Z) : length (le_bytes w n) = w.
Proof.
  revert n. induction w as [|w IH]; intros n; simpl; [reflexivity|].
  now rewrite IH.
Qed.

Lemma length_be_bytes (w : nat) (n : Z) : length (be_bytes w n) = w.
Proof. unfold be_bytes. rewrite length_rev. apply length_le_bytes. Qed.

Lemma le_value_le_bytes (w : nat) (n : Z) :
  le_value (le_bytes w n) = n mod 256 ^ Z.of_nat w.
Proof.
  revert n. induction w as [|w IH]; intros n.
  - simpl. now rewrite Z.mod_1_r.
  - cbn [le_bytes le_value fold_right]. fold (le_value (le_bytes w (Z.shiftr n 8))).
    rewrite IH, byte_val_u8, Z.shiftr_div_pow2 by lia.
    rewrite Nat2Z.inj_succ, Z.pow_succ_r by lia.
    change (2 ^ 8) with 256.
    rewrite (Z.rem_mul_r n 256 (256 ^ Z.of_nat w)) by lia.
    reflexivity.
Qed.

Lemma be_value_app (x : Buffer) (b : byte) :
  be_value (x ++ [b]) = be_value x * 256 + byte_val b.
Proof. unfold be_value. rewrite fold_left_app. reflexivity. Qed.

Lemma be_value_rev (x : Buffer) : be_value (rev x) = le_value x.
Proof.
  induction x as [|b x IH]; [reflexivity|].
  cbn [rev]. rewrite be_value_app, IH. cbn [le_value fold_right].
  fold (le_value x). lia.
Qed.

Lemma be_value_be_bytes (w : nat) (n : Z) :
  0 <= n < 256 ^ Z.of_nat w -> be_value (be_bytes w n) = n.
Proof.
  intros H. unfold be_bytes. rewrite be_value_rev, le_value_le_bytes.
  apply Z.mod_small. exact H.
Qed.

Lemma le_value_le_bytes_small (w : nat) (n : Z) :
  0 <= n < 256 ^ Z.of_nat w -> le_value (le_bytes w n) = n.
Proof.
  intros H. rewrite le_value_le_bytes. apply Z.mod_small. exact H.
Qed.

Lemma be_value_nonneg (x : Buffer) : 0 <= be_value x.
Proof.
  induction x as [|b x IH] using rev_ind; [cbn; lia|].
  rewrite be_value_app. pose proof (byte_val_range b). lia.
Qed.

(** ** TLV8 *)

Module TLV8Facts.
Import TLV8.

Lemma fragment_loop_step (t : Z) (d : Buffer) (off : Z) (chunks : list Buffer) :
  fragment_loop t d off chunks =
  if Z_lt_dec off (Buffer_length d) then
    fragment_loop t d
      (off + Z.min TLV8_MAX_FRAGMENT_SIZE (Buffer_length d - off))
      (chunks ++
         [ Buffer_from
             [t; Z.min TLV8_MAX_FRAGMENT_SIZE (Buffer_length d - off)];
           subarray d off
             (off + Z.min TLV8_MAX_FRAGMENT_SIZE (Buffer_length d - off)) ])
  else chunks.
Proof.
  rewrite fragment_loop_equation_1.
  destruct (Z_lt_dec off (Buffer_length d)); reflexivity.
Qed.

(** The loop only appends to the array it is given. *)
Lemma fragment_loop_acc (t : Z) (d : Buffer) (off : Z) (chunks : list Buffer) :
  fragment_loop t d off chunks = chunks ++ fragment_loop t d off [].
Proof.
  remember (Z.to_nat (Buffer_length d - off)) as n eqn:Hn.
  revert off chunks Hn.
  induction n as [n IH] using lt_wf_ind; intros off chunks Hn.
  rewrite (fragment_loop_step t d off chunks), (fragment_loop_step t d off []).
  destruct (Z_lt_dec off (Buffer_length d)) as [Hlt|Hge].
  - set (len := Z.min TLV8_MAX_FRAGMENT_SIZE (Buffer_length d - off)).
    assert (Hm : (Z.to_nat (Buffer_length d - (off + len)) < n)%nat)
      by (unfold len, TLV8_MAX_FRAGMENT_SIZE; lia).
    rewrite (IH _ Hm (off + len) (chunks ++ _) eq_refl).
    rewrite (IH _ Hm (off + len) ([] ++ _) eq_refl).
    cbn [app]. now rewrite <- app_assoc.
  - now rewrite app_nil_r.
Qed.

Lemma parse_records_cons (t l : byte) (payload rest : Buffer) :
  Z.to_nat (byte_val l) = length payload ->
  parse_records (t :: l :: payload ++ rest) =
  option_map
    (cons {| rec_type := t; rec_length := l; rec_payload := payload |})
    (parse_records rest).
Proof.
  intros Hl. simp parse_records.
  destruct (le_dec (Z.to_nat (byte_val l)) (length (payload ++ rest))) as [Hle|Hgt].
  - cbn. rewrite Hl, firstn_app, skipn_app, Nat.sub_diag, firstn_all, skipn_all.
    cbn. now rewrite app_nil_r.
  - exfalso. apply Hgt. rewrite length_app. lia.
Qed.

(** One turn of the loop, seen on the bytes emitted. *)
Lemma item_bytes_step (t : Z) (d : Buffer) (off : Z) :
  0 <= off < Buffer_length d ->
  let len := Z.min TLV8_MAX_FRAGMENT_SIZE (Buffer_length d - off) in
  concat (fragment_loop t d off []) =
  u8 t :: u8 len ::
    firstn (Z.to_nat len) (skipn (Z.to_nat off) d) ++
    concat (fragment_loop t d (off + len) []).
Proof.
  intros Hoff len. rewrite fragment_loop_step.
  destruct (Z_lt_dec off (Buffer_length d)) as [_|Hge]; [|lia].
  fold len. rewrite fragment_loop_acc, concat_app. cbn.
  unfold subarray. replace (off + len - off) with len by lia.
  now rewrite app_nil_r.
Qed.

Lemma item_bytes_done (t : Z) (d : Buffer) (off : Z) :
  Buffer_length d <= off -> fragment_loop t d off [] = [].
Proof.
  intros H. rewrite fragment_loop_step.
  destruct (Z_lt_dec off (Buffer_length d)); [lia|reflexivity].
Qed.

(** The records emitted for the bytes of [d] from [off] on. *)
Lemma item_records (t : Z) (d : Buffer) (off : Z) :
  0 <= off <= Buffer_length d ->
  exists recs,
    parse_records (concat (fragment_loop t d off [])) = Some recs /\
    Forall (fun r => rec_type r = u8 t) recs /\
    concat (map rec_payload recs) = skipn (Z.to_nat off) d /\
    map (fun r => (byte_val (rec_length r), Buffer_length (rec_payload r))) recs =
      repeat (255, 255) (Z.to_nat ((Buffer_length d - off) / 255)) ++
      (if (Buffer_length d - off) mod 255 =? 0 then []
       else [((Buffer_length d - off) mod 255, (Buffer_length d - off) mod 255)]).
Proof.
  remember (Z.to_nat (Buffer_length d - off)) as n eqn:Hn.
  revert off Hn.
  induction n as [n IH] using lt_wf_ind; intros off Hn Hoff.
  destruct (Z.eq_dec off (Buffer_length d)) as [Heq|Hne].
  - exists []. rewrite item_bytes_done by lia.
    replace (Buffer_length d - off) with 0 by lia.
    repeat split; try constructor.
    cbn. symmetry. apply skipn_all2. unfold Buffer_length in Heq. lia.
  - set (len := Z.min TLV8_MAX_FRAGMENT_SIZE (Buffer_length d - off)).
    assert (Hlen : 1 <= len <= 255 /\ len <= Buffer_length d - off)
      by (unfold len, TLV8_MAX_FRAGMENT_SIZE; lia).
    assert (Hm : (Z.to_nat (Buffer_length d - (off + len)) < n)%nat) by lia.
    destruct (IH _ Hm (off + len) eq_refl ltac:(lia))
      as (recs & Hparse & Htype & Hpay & Hlens).
    set (payload := firstn (Z.to_nat len) (skipn (Z.to_nat off) d)).
    assert (Hpl : length payload = Z.to_nat len).
    { unfold payload. rewrite length_firstn, length_skipn.
      unfold Buffer_length in *. lia. }
    exists ({| rec_type := u8 t; rec_length := u8 len; rec_payload := payload |}
            :: recs).
    rewrite item_bytes_step by lia. fold len. fold payload.
    rewrite parse_records_cons
      by (rewrite byte_val_u8_small by lia; now rewrite Hpl).
    rewrite Hparse. cbn [option_map map concat rec_payload rec_length].
    repeat split.
    + constructor; [reflexivity|exact Htype].
    + rewrite Hpay. unfold payload.
      replace (Z.to_nat (off + len)) with (Z.to_nat len + Z.to_nat off)%nat by lia.
      rewrite <- skipn_skipn. apply firstn_skipn.
    + rewrite byte_val_u8_small by lia. rewrite Hlens.
      unfold Buffer_length at 1. rewrite Hpl, Z2Nat.id by lia.
      replace (Buffer_length d - (off + len)) with (Buffer_length d - off - len)
        by lia.
      assert (Hdef : len = Z.min 255 (Buffer_length d - off)) by reflexivity.
      assert (Hpos : 0 < Buffer_length d - off) by lia.
      clearbody payload len.
      generalize dependent (Buffer_length d - off). intros m; intros.
      destruct (Z_lt_dec m 255) as [Hsmall|Hbig].
      * replace len with m by lia. replace (m - m) with 0 by lia.
        rewrite (Z.div_small m 255), (Z.mod_small m 255) by lia.
        destruct (Z.eqb_spec m 0); [lia|]. reflexivity.
      * replace len with 255 by lia.
        assert (E1 : m / 255 = (m - 255) / 255 + 1)
          by (rewrite <- Z.div_add by lia; f_equal; lia).
        assert (E2 : m mod 255 = (m - 255) mod 255)
          by (rewrite <- (Z.mod_add (m - 255) 1 255) by lia; f_equal; lia).
        rewrite E1, E2.
        replace (Z.to_nat ((m - 255) / 255 + 1))
          with (S (Z.to_nat ((m - 255) / 255)))
          by (pose proof (Z.div_pos (m - 255) 255); lia).
        reflexivity.
Qed.

Lemma encodeTLV8_fold (items : list TLV8Item) (chunks : list Buffer) :
  fold_left (fun chunks item => fragment_loop (type item) (data item) 0 chunks)
    items chunks =
  chunks ++
  fold_left (fun chunks item => fragment_loop (type item) (data item) 0 chunks)
    items [].
Proof.
  revert chunks. induction items as [|item items IH]; intros chunks; cbn.
  - now rewrite app_nil_r.
  - rewrite IH, (IH (fragment_loop _ _ 0 [])), fragment_loop_acc.
    now rewrite app_assoc.
Qed.

Lemma encodeTLV8_cons (item : TLV8Item) (items : list TLV8Item) :
  encodeTLV8 (item :: items) =
  concat (fragment_loop (type item) (data item) 0 []) ++ encodeTLV8 items.
Proof.
  unfold encodeTLV8, Buffer_concat. cbn [fold_left].
  rewrite encodeTLV8_fold, concat_app. reflexivity.
Qed.

Lemma encodeTLV8_single (item : TLV8Item) :
  encodeTLV8 [item] = concat (fragment_loop (type item) (data item) 0 []).
Proof. rewrite encodeTLV8_cons. cbn. apply app_nil_r. Qed.

(** Items are emitted in input order: the output of a list is the
    concatenation of the outputs of its items. *)
Lemma encodeTLV8_app (xs ys : list TLV8Item) :
  encodeTLV8 (xs ++ ys) = encodeTLV8 xs ++ encodeTLV8 ys.
Proof.
  induction xs as [|x xs IH]; [reflexivity|].
  cbn [app]. rewrite !encodeTLV8_cons, IH. apply app_assoc.
Qed.

Lemma encodeTLV8_in_order (items : list TLV8Item) :
  encodeTLV8 items = concat (map (fun item => encodeTLV8 [item]) items).
Proof.
  induction items as [|x xs IH]; [reflexivity|].
  cbn [map concat]. rewrite <- IH, encodeTLV8_single. apply encodeTLV8_cons.
Qed.


(** C8.  For a single item [(t, d)] with [t] a byte and [d] of any length,
    the output is a sequence of records, and concatenating, in order, the
    payloads of the records whose type byte is [t] gives back [d]. *)
Theorem tlv8_payload_roundtrip (t : Z) (d : Buffer) :
  0 <= t <= 255 ->
  exists recs,
    parse_records (encodeTLV8 [{| type := t; data := d |}]) = Some recs /\
    payload_of_type t recs = d.
Proof.
  intros Ht.
  destruct (item_records t d 0 ltac:(pose proof (Buffer_length_nonneg d); lia))
    as (recs & Hparse & Htype & Hpay & _).
  exists recs. rewrite encodeTLV8_single. cbn [type data].
  split; [exact Hparse|].
  unfold payload_of_type.
  replace (filter (fun r => byte_val (rec_type r) =? t) recs) with recs.
  - exact Hpay.
  - symmetry. clear Hparse Hpay.
    induction Htype as [|r recs Hr _ IH]; [reflexivity|].
    cbn [filter]. rewrite Hr, byte_val_u8_small, Z.eqb_refl by lia.
    now rewrite IH.
Qed.

Lemma tlv8_payload_roundtrip_witness :
  exists recs,
    parse_records
      (encodeTLV8 [{| type := 6; data := [x01; x02; x03] |}]) = Some recs /\
    payload_of_type 6 recs = [x01; x02; x03].
Proof.
  apply (tlv8_payload_roundtrip 6 [x01; x02; x03]). lia.
Defined.

(** C4, as the encoder has it.  For an item [(t, d)] with [|d| > 255] the
    output is a sequence of records all of type [t]; the first
    [floor(|d| / 255)] of them have length byte 255 and carry 255 bytes;
    when [|d| mod 255] is not 0 one more record follows, with length byte
    [|d| mod 255], and when it is 0 no record follows, so that the final
    record has length byte 255.  The item [(0x05, 260 bytes of 0xAB)] encodes
    to [05 FF], 255 bytes, [05 05], 5 bytes. *)
Theorem tlv8_fragment_lengths :
  (forall (t : Z) (d : Buffer),
     0 <= t <= 255 ->
     255 < Buffer_length d ->
     exists recs,
       parse_records (encodeTLV8 [{| type := t; data := d |}]) = Some recs /\
       Forall (fun r => byte_val (rec_type r) = t) recs /\
       map (fun r => (byte_val (rec_length r), Buffer_length (rec_payload r))) recs =
         repeat (255, 255) (Z.to_nat (Buffer_length d / 255)) ++
         (if Buffer_length d mod 255 =? 0 then []
          else [(Buffer_length d mod 255, Buffer_length d mod 255)]) /\
       (Buffer_length d mod 255 <> 0 ->
        final_length_is_remainder {| type := t; data := d |}) /\
       (Buffer_length d mod 255 = 0 ->
        exists recs' r, recs = recs' ++ [r] /\ byte_val (rec_length r) = 255)) /\
  encodeTLV8 [{| type := 0x05; data := repeat xab 260 |}] =
    [x05; xff] ++ repeat xab 255 ++ [x05; x05] ++ repeat xab 5.
Proof.
  split; [|vm_compute; reflexivity].
  intros t d Ht Hd.
  destruct (item_records t d 0 ltac:(lia)) as (recs & Hparse & Htype & _ & Hlens).
  rewrite Z.sub_0_r in Hlens.
  exists recs. rewrite encodeTLV8_single. cbn [type data].
  split; [exact Hparse|]. split; [|split; [exact Hlens|split]].
  - eapply Forall_impl; [|exact Htype].
    intros r Hr. cbn beta in Hr. rewrite Hr. apply byte_val_u8_small. lia.
  - intros Hmod. apply Z.eqb_neq in Hmod. rewrite Hmod in Hlens.
    unfold final_length_is_remainder. rewrite encodeTLV8_single. cbn [type data].
    destruct (exists_last (l := recs)) as (recs' & r & ->).
    { intros ->. destruct (repeat _ _); discriminate Hlens. }
    exists recs', r. split; [exact Hparse|].
    rewrite map_app in Hlens. apply app_inj_tail in Hlens.
    destruct Hlens as [_ Hlast]. now inversion Hlast.
  - intros Hmod. rewrite Hmod in Hlens. cbn [Z.eqb] in Hlens.
    rewrite app_nil_r in Hlens.
    assert (Hq : 1 <= Buffer_length d / 255)
      by (apply Z.div_le_lower_bound; lia).
    destruct (Z.to_nat (Buffer_length d / 255)) as [|q] eqn:Eq; [lia|].
    cbn [repeat] in Hlens. rewrite repeat_cons in Hlens.
    destruct (exists_last (l := recs)) as (recs' & r & ->).
    { intros ->. destruct (repeat _ q); discriminate Hlens. }
    exists recs', r. split; [reflexivity|].
    rewrite map_app in Hlens. apply app_inj_tail in Hlens.
    destruct Hlens as [_ Hlast]. now inversion Hlast.
Qed.

Lemma tlv8_fragment_lengths_witness :
  exists recs,
    parse_records
      (encodeTLV8 [{| type := 5; data := repeat xab 260 |}]) = Some recs /\
    Forall (fun r => byte_val (rec_type r) = 5) recs /\
    map (fun r => (byte_val (rec_length r), Buffer_length (rec_payload r))) recs =
      repeat (255, 255) (Z.to_nat (Buffer_length (repeat xab 260) / 255)) ++
      (if Buffer_length (repeat xab 260) mod 255 =? 0 then []
       else [(Buffer_length (repeat xab 260) mod 255,
              Buffer_length (repeat xab 260) mod 255)]) /\
    (Buffer_length (repeat xab 260) mod 255 <> 0 ->
     final_length_is_remainder {| type := 5; data := repeat xab 260 |}) /\
    (Buffer_length (repeat xab 260) mod 255 = 0 ->
     exists recs' r, recs = recs' ++ [r] /\ byte_val (rec_length r) = 255).
Proof.
  apply (proj1 tlv8_fragment_lengths 5 (repeat xab 260)).
  - lia.
  - vm_compute. reflexivity.
Defined.

(** C4 as stated fails when [|d|] is a multiple of 255: the 510-byte value
    is emitted as two records of 255 bytes, and the final record's length
    byte is 255, not [510 mod 255 = 0]. *)
Lemma tlv8_final_length_counterexample :
  255 < Buffer_length (repeat x00 510) /\
  ~ final_length_is_remainder {| type := 0x05; data := repeat x00 510 |}.
Proof.
  split; [vm_compute; reflexivity|].
  intros (recs & r & Hparse & Hlen).
  cbn [data] in Hlen.
  set (full := {| rec_type := x05; rec_length := xff;
                  rec_payload := repeat x00 255 |}).
  assert (E : parse_records
                (encodeTLV8 [{| type := 0x05; data := repeat x00 510 |}]) =
              Some ([full] ++ [full]))
    by (vm_compute; reflexivity).
  assert (E' : recs ++ [r] = [full] ++ [full]) by congruence.
  apply app_inj_tail in E'. destruct E' as [_ ->].
  vm_compute in Hlen. discriminate Hlen.
Qed.

(** C3.  An item with empty data leaves no trace in the output: the loop
    body never runs, and no [type, 0] record is emitted. *)
Theorem tlv8_empty_data_emits_nothing :
  (forall t : Z, encodeTLV8 [{| type := t; data := [] |}] = []) /\
  encodeTLV8 [{| type := 0xff; data := [] |}] <> [xff; x00] /\
  encodeTLV8 [{| type := 0x06; data := [x01] |};
              {| type := 0xff; data := [] |};
              {| type := 0x06; data := [x02] |}] =
    [x06; x01; x01; x06; x01; x02].
Proof.
  split; [|split].
  - intros t. rewrite encodeTLV8_single. cbn [type data].
    now rewrite item_bytes_done by (cbn; lia).
  - vm_compute. discriminate.
  - vm_compute. reflexivity.
Qed.

End TLV8Facts.

(** ** OPACK2 *)

Module Opack2Facts.
Import Opack2.

Lemma integer_value_isInteger (num : JSNumber) (n : Z) :
  integer_value num = Some n ->
  Number_isInteger num = true /\ Number_toZ num = n.
Proof.
  intros H. unfold Number_isInteger, Number_toZ. rewrite H. now split.
Qed.

Lemma encodeNumber_float (num : JSNumber) :
  integer_value num = None \/ (exists n, integer_value num = Some n /\ n < 0) ->
  encodeNumber num = Ok (x35 :: writeFloatLE num).
Proof.
  intros [H|(n & H & Hn)]; unfold encodeNumber, Number_isInteger, Number_toZ;
    rewrite H; cbn [negb orb]; [reflexivity|].
  destruct (Z.ltb_spec n 0); [reflexivity|lia].
Qed.

(** The encoder on a whole number [n >= 0], as a function of [n]. *)
Lemma encodeNumber_integer (num : JSNumber) (n : Z) :
  integer_value num = Some n -> 0 <= n ->
  encodeNumber num =
  if n <=? 0x27 then Ok [u8 (n + 8)]
  else if n <=? 0xff then Ok [x30; u8 n]
  else if n <=? 0xffffffff then Ok (x32 :: le_bytes 4 n)
  else if n <=? 2 ^ 53 - 1 then Ok (x33 :: le_bytes 8 n)
  else Throw (AppleTVError (NumberTooLarge num)).
Proof.
  intros H Hn. unfold encodeNumber, Number_isInteger, Number_toZ. rewrite H.
  destruct (Z.ltb_spec n 0) as [?|_]; [lia|]. cbn [negb orb].
  unfold OPACK2_SMALL_INT_MAX, OPACK2_UINT8_MAX, OPACK2_UINT32_MAX,
    MAX_SAFE_INTEGER, OPACK2_SMALL_INT_OFFSET.
  destruct (Z.leb_spec n 0x27); [reflexivity|].
  destruct (Z.leb_spec n 0xff); [reflexivity|].
  destruct (Z.leb_spec n 0xffffffff) as [H32|H32].
  { unfold writeUInt32LE.
    destruct (Z.leb_spec 0 n); [|lia].
    destruct (Z.leb_spec n 0xffffffff); [|lia]. reflexivity. }
  destruct (Z.leb_spec n (2 ^ 53 - 1)) as [H53|H53]; [|reflexivity].
  unfold writeBigUInt64LE.
  destruct (Z.leb_spec 0 n); [|lia].
  destruct (Z.ltb_spec n (2 ^ 64)); [reflexivity|lia].
Qed.

(** C5.  The number encoder, range by range: a whole number [n] in 0..39 is
    the single byte [n + 0x08]; in 40..0xFF it is [0x30] and the byte [n]; in
    0x100..0xFFFFFFFF it is [0x32] and [n] on 4 bytes, little-endian; up to
    [2^53 - 1] it is [0x33] and [n] on 8 bytes, little-endian; a number that
    is not whole or is negative is [0x35] and the 4 bytes of its binary32
    conversion, little-endian; a larger whole number raises an error.
    [0], [39] and [40] encode to [08], [2F] and [30 28]. *)
Theorem encodeNumber_by_range :
  (forall num : JSNumber,
     (forall n, integer_value num = Some n -> 0 <= n <= 39 ->
        encodeNumber num = Ok [u8 (n + 0x08)] /\
        byte_val (u8 (n + 0x08)) = n + 0x08) /\
     (forall n, integer_value num = Some n -> 40 <= n <= 0xff ->
        encodeNumber num = Ok [x30; u8 n] /\ byte_val (u8 n) = n) /\
     (forall n, integer_value num = Some n -> 0x100 <= n <= 0xffffffff ->
        exists cells,
          encodeNumber num = Ok (x32 :: cells) /\
          length cells = 4%nat /\ le_value cells = n) /\
     (forall n, integer_value num = Some n -> 0x100000000 <= n <= 2 ^ 53 - 1 ->
        exists cells,
          encodeNumber num = Ok (x33 :: cells) /\
          length cells = 8%nat /\ le_value cells = n) /\
     (integer_value num = None \/
      (exists n, integer_value num = Some n /\ n < 0) ->
        encodeNumber num = Ok (x35 :: writeFloatLE num) /\
        length (writeFloatLE num) = 4%nat /\
        le_value (writeFloatLE num) = float32_bits (fround num) mod 2 ^ 32) /\
     (forall n, integer_value num = Some n -> 2 ^ 53 - 1 < n ->
        encodeNumber num = Throw (AppleTVError (NumberTooLarge num)))) /\
  encodeNumber (Number_of_Z 0) = Ok [x08] /\
  encodeNumber (Number_of_Z 39) = Ok [x2f] /\
  encodeNumber (Number_of_Z 40) = Ok [x30; x28].
Proof.
  split; [|repeat split; vm_compute; reflexivity].
  intros num. repeat split.
  - rewrite (encodeNumber_integer num n) by (assumption || lia).
    destruct (Z.leb_spec n 0x27); [reflexivity|lia].
  - apply byte_val_u8_small. lia.
  - rewrite (encodeNumber_integer num n) by (assumption || lia).
    destruct (Z.leb_spec n 0x27); [lia|].
    destruct (Z.leb_spec n 0xff); [reflexivity|lia].
  - apply byte_val_u8_small. lia.
  - intros n H Hn. exists (le_bytes 4 n).
    rewrite (encodeNumber_integer num n) by (assumption || lia).
    destruct (Z.leb_spec n 0x27); [lia|].
    destruct (Z.leb_spec n 0xff); [lia|].
    destruct (Z.leb_spec n 0xffffffff); [|lia].
    repeat split. apply le_value_le_bytes_small. cbn. lia.
  - intros n H Hn. exists (le_bytes 8 n).
    rewrite (encodeNumber_integer num n) by (assumption || lia).
    destruct (Z.leb_spec n 0x27); [lia|].
    destruct (Z.leb_spec n 0xff); [lia|].
    destruct (Z.leb_spec n 0xffffffff); [lia|].
    destruct (Z.leb_spec n (2 ^ 53 - 1)); [|lia].
    repeat split. apply le_value_le_bytes_small. cbn. lia.
  - now apply encodeNumber_float.
  - unfold writeFloatLE. apply le_value_le_bytes.
  - intros n H Hn.
    rewrite (encodeNumber_integer num n) by (assumption || lia).
    destruct (Z.leb_spec n 0x27); [lia|].
    destruct (Z.leb_spec n 0xff); [lia|].
    destruct (Z.leb_spec n 0xffffffff); [lia|].
    destruct (Z.leb_spec n (2 ^ 53 - 1)); [lia|reflexivity].
Qed.


Lemma encodeNumber_by_range_witness :
  encodeNumber (Number_of_Z 300) = Ok (x32 :: le_bytes 4 300) /\
  encodeNumber (S754_finite true 3 (-1)) =
    Ok (x35 :: writeFloatLE (S754_finite true 3 (-1))).
Proof.
  destruct (proj1 encodeNumber_by_range (Number_of_Z 300))
    as (_ & _ & H32 & _).
  destruct (proj1 encodeNumber_by_range (S754_finite true 3 (-1)))
    as (_ & _ & _ & _ & Hf & _).
  split.
  - destruct (H32 300 eq_refl ltac:(lia)) as (cells & E & _ & _).
    rewrite E. vm_compute in E. injection E as <-. reflexivity.
  - apply Hf. left. reflexivity.
Defined.

(** Sample binary32 conversions: -1, 0.5, -1.5 and NaN. *)
Example encodeNumber_floats :
  encodeNumber (Number_of_Z (-1)) = Ok [x35; x00; x00; x80; xbf] /\
  encodeNumber (S754_finite false 1 (-1)) = Ok [x35; x00; x00; x00; x3f] /\
  encodeNumber (S754_finite true 3 (-1)) = Ok [x35; x00; x00; xc0; xbf] /\
  encodeNumber S754_nan = Ok [x35; x00; x00; xc0; x7f].
Proof. repeat split; vm_compute; reflexivity. Qed.

(** Known answers for strings and small mappings: [""], ["A"], a 33-character
    string, [{}] and [{"a": 1}]. *)
Example encode_known_answers :
  encode (VString "") = Ok [x40] /\
  encode (VString "A") = Ok [x41; x41] /\
  encode (VString "abcdefghijklmnopqrstuvwxyz0123456") =
    Ok ([x61; x21] ++ utf8_encode "abcdefghijklmnopqrstuvwxyz0123456") /\
  encode (VObject []) = Ok [xe0] /\
  encode (VObject [("a"%string, VNumber (Number_of_Z 1))]) =
    Ok [xe1; x41; x61; x09].
Proof. repeat split; vm_compute; reflexivity. Qed.

(** The dispatcher on a string, an array and an object. *)
Lemma encode_VString (str : string) : encode (VString str) = encodeString str.
Proof. reflexivity. Qed.

Lemma encode_VArray (arr : list SerializableValue) :
  encode (VArray arr) = encodeArray arr.
Proof. reflexivity. Qed.

Lemma encode_VObject (entries : list (string * SerializableValue)) :
  encode (VObject entries) = encodeDict entries.
Proof. reflexivity. Qed.

Lemma push_items_ok (arr : list SerializableValue) (parts : list Buffer) :
  Forall2 encodes arr parts ->
  forall acc, push_items encode arr acc = Ok (acc ++ parts).
Proof.
  induction 1 as [|item part arr parts Hitem _ IH]; intros acc; cbn.
  - now rewrite app_nil_r.
  - rewrite Hitem. cbn. rewrite IH, <- app_assoc. reflexivity.
Qed.

Lemma push_entries_ok (entries : list (string * SerializableValue))
    (parts : list (Buffer * Buffer)) :
  Forall2 encodes_entry entries parts ->
  forall acc,
    push_entries encode entries acc =
    Ok (acc ++ flat_map (fun p => [fst p; snd p]) parts).
Proof.
  induction 1 as [|[key value] [kpart vpart] entries parts [Hk Hv] _ IH];
    intros acc; cbn [push_entries flat_map].
  - now rewrite app_nil_r.
  - cbn [fst snd] in *. rewrite encode_VString in Hk. rewrite Hk, Hv.
    cbn [bind_result]. rewrite IH, <- !app_assoc. reflexivity.
Qed.

Lemma concat_entry_parts (parts : list (Buffer * Buffer)) :
  concat (flat_map (fun p => [fst p; snd p]) parts) =
  concat (map (fun p => fst p ++ snd p) parts).
Proof.
  induction parts as [|p parts IH]; [reflexivity|].
  cbn. now rewrite IH, app_assoc.
Qed.

Lemma encodeArray_small (arr : list SerializableValue) (parts : list Buffer) :
  Forall2 encodes arr parts ->
  Z.of_nat (length arr) <= 15 ->
  encodeArray arr = Ok (u8 (0xd0 + Z.of_nat (length arr)) :: concat parts).
Proof.
  intros Hparts Hlen. unfold encodeArray, encodeArray_body.
  unfold OPACK2_SMALL_ARRAY_MAX.
  destruct (Z.leb_spec (Z.of_nat (length arr)) 15); [|lia].
  rewrite (push_items_ok _ _ Hparts). reflexivity.
Qed.

Lemma encodeArray_variable (arr : list SerializableValue) (parts : list Buffer) :
  Forall2 encodes arr parts ->
  15 < Z.of_nat (length arr) ->
  encodeArray arr = Ok ([xdf] ++ concat parts ++ [x03]).
Proof.
  intros Hparts Hlen. unfold encodeArray, encodeArray_body.
  unfold OPACK2_SMALL_ARRAY_MAX.
  destruct (Z.leb_spec (Z.of_nat (length arr)) 15); [lia|].
  rewrite (push_items_ok _ _ Hparts). cbn [bind_result].
  unfold Buffer_concat. rewrite !concat_app. reflexivity.
Qed.

Lemma encodeDict_small (entries : list (string * SerializableValue))
    (parts : list (Buffer * Buffer)) :
  Forall2 encodes_entry entries parts ->
  Z.of_nat (length entries) < 15 ->
  encodeDict entries =
  Ok (u8 (0xe0 + Z.of_nat (length entries)) ::
      concat (map (fun p => fst p ++ snd p) parts)).
Proof.
  intros Hparts Hlen. unfold encodeDict, encodeDict_body.
  unfold OPACK2_SMALL_DICT_MAX.
  destruct (Z.ltb_spec (Z.of_nat (length entries)) 15); [|lia].
  rewrite (push_entries_ok _ _ Hparts). cbn [bind_result].
  unfold Buffer_concat. rewrite concat_app, concat_entry_parts. reflexivity.
Qed.

Lemma encodeDict_variable (entries : list (string * SerializableValue))
    (parts : list (Buffer * Buffer)) :
  Forall2 encodes_entry entries parts ->
  15 <= Z.of_nat (length entries) ->
  encodeDict entries =
  Ok ([xef] ++ concat (map (fun p => fst p ++ snd p) parts) ++ [x03; x03]).
Proof.
  intros Hparts Hlen. unfold encodeDict, encodeDict_body.
  unfold OPACK2_SMALL_DICT_MAX.
  destruct (Z.ltb_spec (Z.of_nat (length entries)) 15); [lia|].
  rewrite (push_entries_ok _ _ Hparts). cbn [bind_result].
  unfold Buffer_concat. rewrite !concat_app, concat_entry_parts. reflexivity.
Qed.

(** C6.  Arrays: with every element encoding, an array of [L <= 15] elements
    is the header byte [0xD0 + L] followed by the element encodings and
    nothing else, and one of [L > 15] elements is [0xDF], the element
    encodings and one [0x03].  Mappings: with every key and value encoding, a
    mapping of [L < 15] entries is [0xE0 + L] followed by the key and value
    encodings, and one of [L >= 15] entries is [0xEF], the key and value
    encodings and [0x03 0x03]. *)
Theorem container_thresholds :
  (forall (arr : list SerializableValue) (parts : list Buffer),
     Forall2 encodes arr parts ->
     let L := Z.of_nat (length arr) in
     (L <= 15 ->
        encode (VArray arr) = Ok (u8 (0xd0 + L) :: concat parts) /\
        byte_val (u8 (0xd0 + L)) = 0xd0 + L) /\
     (15 < L ->
        encode (VArray arr) = Ok ([xdf] ++ concat parts ++ [x03]))) /\
  (forall (entries : list (string * SerializableValue))
          (parts : list (Buffer * Buffer)),
     Forall2 encodes_entry entries parts ->
     let L := Z.of_nat (length entries) in
     (L < 15 ->
        encode (VObject entries) =
          Ok (u8 (0xe0 + L) :: concat (map (fun p => fst p ++ snd p) parts)) /\
        byte_val (u8 (0xe0 + L)) = 0xe0 + L) /\
     (15 <= L ->
        encode (VObject entries) =
          Ok ([xef] ++ concat (map (fun p => fst p ++ snd p) parts) ++
              [x03; x03]))).
Proof.
  split.
  - intros arr parts Hparts L. split.
    + intros HL. split.
      * rewrite encode_VArray. now apply encodeArray_small.
      * apply byte_val_u8_small. lia.
    + intros HL. rewrite encode_VArray. now apply encodeArray_variable.
  - intros entries parts Hparts L. split.
    + intros HL. split.
      * rewrite encode_VObject. now apply encodeDict_small.
      * apply byte_val_u8_small. lia.
    + intros HL. rewrite encode_VObject. now apply encodeDict_variable.
Qed.

Lemma container_thresholds_witness :
  (encode (VArray [VNull; VBoolean true]) =
     Ok (u8 (0xd0 + 2) :: concat [[x03]; [x01]]) /\
   byte_val (u8 (0xd0 + 2)) = 0xd0 + 2) /\
  encode (VArray (repeat VNull 16)) =
    Ok ([xdf] ++ concat (repeat [x03] 16) ++ [x03]) /\
  (encode (VObject [("a"%string, VNumber (Number_of_Z 1))]) =
     Ok (u8 (0xe0 + 1) :: concat [[x41; x61] ++ [x09]]) /\
   byte_val (u8 (0xe0 + 1)) = 0xe0 + 1) /\
  encode (VObject (repeat ("a"%string, VNull) 15)) =
    Ok ([xef] ++ concat (repeat ([x41; x61] ++ [x03]) 15) ++ [x03; x03]).
Proof.
  assert (Hnull : forall n, Forall2 encodes (repeat VNull n) (repeat [x03] n))
    by (induction n; constructor; [reflexivity|assumption]).
  assert (Hent : forall n,
             Forall2 encodes_entry (repeat ("a"%string, VNull) n)
               (repeat ([x41; x61], [x03]) n))
    by (induction n; constructor; [split; reflexivity|assumption]).
  split; [|split; [|split]].
  - apply (proj1 container_thresholds [VNull; VBoolean true] [[x03]; [x01]]).
    + repeat constructor.
    + cbn. lia.
  - apply (proj1 container_thresholds (repeat VNull 16) (repeat [x03] 16)).
    + apply Hnull.
    + cbn. lia.
  - apply (proj2 container_thresholds
             [("a"%string, VNumber (Number_of_Z 1))] [([x41; x61], [x09])]).
    + repeat constructor.
    + cbn. lia.
  - apply (proj2 container_thresholds (repeat ("a"%string, VNull) 15)
             (repeat ([x41; x61], [x03]) 15)).
    + apply Hent.
    + cbn. lia.
Defined.

(** C10.  The header byte of a 15-element array, [0xD0 + 15], is the
    variable-form marker [0xDF]: an array of 15 elements and an array of more
    than 15 elements both start with the byte [0xDF], the former followed by
    its 15 element encodings only, the latter by its element encodings and
    the terminator [0x03]. *)
Theorem array_of_15_starts_like_variable_form :
  OPACK2_SMALL_ARRAY_BASE + 15 = OPACK2_VARIABLE_ARRAY_MARKER /\
  (forall (small large : list SerializableValue)
          (psmall plarge : list Buffer),
     Forall2 encodes small psmall ->
     Forall2 encodes large plarge ->
     length small = 15%nat ->
     (15 < length large)%nat ->
     encode (VArray small) = Ok (u8 OPACK2_VARIABLE_ARRAY_MARKER :: concat psmall) /\
     encode (VArray large) =
       Ok (u8 OPACK2_VARIABLE_ARRAY_MARKER :: concat plarge ++ [x03])).
Proof.
  split; [reflexivity|].
  intros small large psmall plarge Hs Hl Hlen15 Hlen.
  rewrite !encode_VArray. split.
  - rewrite (encodeArray_small _ _ Hs) by lia. rewrite Hlen15. reflexivity.
  - rewrite (encodeArray_variable _ _ Hl) by lia. reflexivity.
Qed.

Lemma array_of_15_starts_like_variable_form_witness :
  encode (VArray (repeat VNull 15)) =
    Ok (u8 OPACK2_VARIABLE_ARRAY_MARKER :: concat (repeat [x03] 15)) /\
  encode (VArray (repeat (VBoolean true) 16)) =
    Ok (u8 OPACK2_VARIABLE_ARRAY_MARKER :: concat (repeat [x01] 16) ++ [x03]).
Proof.
  apply (proj2 array_of_15_starts_like_variable_form).
  - repeat constructor.
  - repeat constructor.
  - reflexivity.
  - cbn. lia.
Defined.

End Opack2Facts.

(** ** SRP client *)

Module SRPFacts.
Import SRP.

Lemma N_bounds : 2 < N /\ N < 256 ^ SRP_KEY_LENGTH_BYTES.
Proof. split; vm_compute; reflexivity. Qed.

Lemma g_bounds : 0 <= g < 256 ^ SRP_KEY_LENGTH_BYTES.
Proof. split; vm_compute; [discriminate|reflexivity]. Qed.

Lemma bigIntToBuffer_fits (n : Z) :
  0 <= n < 256 ^ SRP_KEY_LENGTH_BYTES ->
  bigIntToBuffer n SRP_KEY_LENGTH_BYTES = Ok (be_bytes 384 n).
Proof.
  intros H. unfold bigIntToBuffer.
  destruct (Z.leb_spec 0 n); [|lia].
  destruct (Z.ltb_spec n (256 ^ SRP_KEY_LENGTH_BYTES)); [|lia].
  reflexivity.
Qed.

Lemma bigIntToBuffer_below_N (n : Z) :
  0 <= n < N -> bigIntToBuffer n SRP_KEY_LENGTH_BYTES = Ok (be_bytes 384 n).
Proof.
  intros H. apply bigIntToBuffer_fits. pose proof N_bounds. lia.
Qed.

(** Spec invariant 1: a value written on [width] bytes reads back. *)
Lemma bufferToBigInt_bigIntToBuffer (n width : Z) (buf : Buffer) :
  0 <= width ->
  bigIntToBuffer n width = Ok buf ->
  bufferToBigInt buf = n /\ Buffer_length buf = width.
Proof.
  intros Hw. unfold bigIntToBuffer, bufferToBigInt.
  destruct (Z.leb_spec 0 n); [|discriminate].
  destruct (Z.ltb_spec n (256 ^ width)); [|discriminate].
  cbn [andb]. intros [= <-]. split.
  - apply be_value_be_bytes. rewrite Z2Nat.id by lia. lia.
  - unfold Buffer_length. rewrite length_be_bytes. lia.
Qed.

Lemma bufferToBigInt_nonneg (buf : Buffer) : 0 <= bufferToBigInt buf.
Proof. apply be_value_nonneg. Qed.

(** On a base that is not negative, [modPow] is the residue in [[0, mod)]. *)
Lemma modPow_nonneg (base exp mod_ : Z) :
  0 <= base -> 0 < mod_ -> modPow base exp mod_ = (base ^ exp) mod mod_.
Proof.
  intros Hb Hm. unfold modPow. apply Z.rem_mod_nonneg; [|exact Hm].
  destruct (Z.le_gt_cases 0 exp) as [He|He].
  - now apply Z.pow_nonneg.
  - rewrite Z.pow_neg_r by exact He. reflexivity.
Qed.

Lemma modPow_range (base exp : Z) :
  0 <= base -> 0 <= modPow base exp N < N.
Proof.
  intros Hb. pose proof N_bounds as [HN _].
  rewrite modPow_nonneg by lia. apply Z.mod_pos_bound. lia.
Qed.

(** On a negative base and an odd exponent, [modPow] is not a residue in
    [[0, N)]: it is the residue of the power of the opposite base, negated,
    so it differs from the result on the folded base unless both are 0. *)
Lemma modPow_negative_base (base q : Z) :
  - N < base < 0 -> 0 <= q ->
  modPow base (2 * q + 1) N = - ((- base) ^ (2 * q + 1) mod N) /\
  modPow base (2 * q + 1) N <= 0 <= modPow (base mod N) (2 * q + 1) N.
Proof.
  intros Hb Hq. pose proof N_bounds as [HN _].
  assert (Hneg : modPow base (2 * q + 1) N
                 = - ((- base) ^ (2 * q + 1) mod N)).
  { unfold modPow.
    replace base with (- (- base)) at 1 by lia.
    rewrite Z.pow_opp_odd by (exists q; reflexivity).
    rewrite Z.rem_opp_l by lia.
    rewrite Z.rem_mod_nonneg; [reflexivity| |lia].
    apply Z.pow_nonneg. lia. }
  split; [exact Hneg|].
  assert (0 <= base mod N < N) as Hfold by (apply Z.mod_pos_bound; lia).
  pose proof (modPow_range (base mod N) (2 * q + 1) (proj1 Hfold)) as Hr.
  assert (0 <= (- base) ^ (2 * q + 1) mod N < N) as Hm
    by (apply Z.mod_pos_bound; lia).
  rewrite Hneg. lia.
Qed.

(** The "fix negative modulo" idiom [((x % n) + n) % n] is the non-negative
    residue of [x]. *)
Lemma rem_add_rem (x n : Z) : 0 < n -> Z.rem (Z.rem x n + n) n = x mod n.
Proof.
  intros Hn.
  pose proof (Z.rem_bound_abs x n ltac:(lia)) as Hb.
  pose proof (Z.quot_rem' x n) as Hq.
  rewrite Z.rem_mod_nonneg by lia.
  replace (Z.rem x n + n) with (x + (1 - Z.quot x n) * n) by lia.
  apply Z.mod_add. lia.
Qed.

Lemma rem_congr (x n : Z) : 0 < n -> (Z.rem x n) mod n = x mod n.
Proof.
  intros Hn. pose proof (Z.quot_rem' x n) as Hq.
  replace (Z.rem x n) with (x + (- Z.quot x n) * n) by lia.
  apply Z.mod_add. lia.
Qed.

(** The base of the shared secret is the residue of [B - k * g^x] in
    [0, N). *)
Lemma base_residue (B kv x : Z) :
  Z.rem (Z.rem (B - Z.rem (kv * modPow g x N) N) N + N) N =
  (B - kv * g ^ x) mod N.
Proof.
  pose proof N_bounds as [HN _].
  rewrite rem_add_rem by lia.
  rewrite Zminus_mod, rem_congr by lia.
  rewrite modPow_nonneg by (pose proof g_bounds; lia).
  rewrite Zmult_mod_idemp_r, <- Zminus_mod. reflexivity.
Qed.


Lemma string_is_empty_false (s : string) :
  s <> ""%string -> string_is_empty s = false.
Proof. destruct s; [congruence|reflexivity]. Qed.

Lemma truthy_bigint_Some (b : Z) : b <> 0 -> truthy_bigint (Some b) = true.
Proof. intros H. cbn. now destruct (Z.eqb_spec b 0). Qed.

Section Methods.

Variable hash : Buffer -> Buffer.

Lemma calculateU_ok (A B : Z) :
  0 <= A < N -> 0 <= B < N ->
  calculateU hash A B SRP_KEY_LENGTH_BYTES =
  Ok (bufferToBigInt (hash (be_bytes 384 A ++ be_bytes 384 B))).
Proof.
  intros HA HB. unfold calculateU.
  rewrite !bigIntToBuffer_below_N by assumption. reflexivity.
Qed.

Lemma calculateM1_ok (user : string) (salt : Buffer) (A B : Z) (K : Buffer) :
  0 <= A < N -> 0 <= B < N ->
  calculateM1 hash N g user salt A B K =
  Ok (hash (xor_buffers (hash (be_bytes 384 N)) (hash (be_bytes 384 g)) ++
            hash (utf8_encode user) ++ salt ++
            be_bytes 384 A ++ be_bytes 384 B ++ K)).
Proof.
  intros HA HB. unfold calculateM1.
  rewrite (bigIntToBuffer_fits N) by (pose proof N_bounds; lia).
  rewrite (bigIntToBuffer_fits g) by apply g_bounds.
  rewrite !bigIntToBuffer_below_N by assumption. reflexivity.
Qed.

(** What [computeSharedSecret] stores, on a client that has what it needs. *)
Lemma computeSharedSecret_ok (this : SRPClient) (salt : Buffer) (B : Z) :
  password this <> ""%string ->
  _salt this = Some salt ->
  _B this = Some B -> 0 < B < N ->
  0 < _A this < N ->
  let u := bufferToBigInt (hash (be_bytes 384 (_A this) ++ be_bytes 384 B)) in
  let x := calculateX hash salt (username this) (password this) in
  let S := ((B - k this * g ^ x) mod N) ^ (_a this + u * x) mod N in
  computeSharedSecret hash this =
  (Ok tt, with_K (Some (hash (be_bytes 384 S))) (with_S (Some S) this)).
Proof.
  intros Hp Hs HB HBr HA u x S.
  pose proof N_bounds as [HN _].
  assert (Hbase : 0 <= (B - k this * g ^ x) mod N < N)
    by (apply Z.mod_pos_bound; lia).
  unfold computeSharedSecret, validateIdentitySet, bind, read, throw, ret,
    lift, update.
  rewrite (string_is_empty_false _ Hp), Hs, HB.
  rewrite truthy_bigint_Some by lia. cbn [negb].
  unfold ZERO. destruct (Z.eqb_spec (_A this) 0) as [?|_]; [lia|].
  rewrite calculateU_ok by lia. fold u. fold x.
  rewrite base_residue.
  rewrite (modPow_nonneg _ _ N (proj1 Hbase)) by lia. fold S.
  rewrite bigIntToBuffer_below_N by (apply Z.mod_pos_bound; lia).
  reflexivity.
Qed.


(** C1.  On a client that is not disposed and holds an identity, a salt, a
    valid server key [B] and client keys [(a, A)], the first use of
    [sessionKey] or [computeProof] stores [S = base^(a + u*x) mod N], where
    [base] is the residue in [0, N) of [B - k * g^x] and the exponent is the
    plain integer [a + u*x], and stores [K = H(PAD(S))]; [sessionKey]
    returns [K] and [computeProof] returns [M1] computed from [K].  Once [K]
    is stored, both return without computing again.  Here [mod] is the
    residue in [[0, N)], while the [%] of the code and its [modPow] follow
    the sign of their operand: [S] is in [[0, N)] because the base is folded
    before [modPow] is called. *)
Theorem shared_secret_and_session_key
    (this : SRPClient) (salt : Buffer) (B : Z) :
  disposed this = false ->
  password this <> ""%string ->
  _salt this = Some salt ->
  _B this = Some B -> 1 < B < N - 1 ->
  1 < _A this < N - 1 ->
  let a := _a this in
  let A := _A this in
  let u := bufferToBigInt (hash (be_bytes 384 A ++ be_bytes 384 B)) in
  let x := calculateX hash salt (username this) (password this) in
  let base := (B - k this * g ^ x) mod N in
  let S := (base ^ (a + u * x)) mod N in
  let K := hash (be_bytes 384 S) in
  let M1 (K : Buffer) :=
    hash (xor_buffers (hash (be_bytes 384 N)) (hash (be_bytes 384 g)) ++
          hash (utf8_encode (username this)) ++ salt ++
          be_bytes 384 A ++ be_bytes 384 B ++ K) in
  let this' := with_K (Some K) (with_S (Some S) this) in
  0 <= base < N /\
  0 <= S < N /\
  (_K this = None ->
     get_sessionKey hash this = (Ok K, this') /\
     computeProof hash this = (Ok (M1 K), this')) /\
  (forall K0, _K this = Some K0 ->
     get_sessionKey hash this = (Ok K0, this) /\
     computeProof hash this = (Ok (M1 K0), this)).
Proof.
  intros Hd Hp Hs HB HBr HA a A u x base S K M1 this'.
  pose proof N_bounds as [HN _].
  assert (HS : computeSharedSecret hash this = (Ok tt, this')).
  { rewrite (computeSharedSecret_ok this salt B Hp Hs HB); [reflexivity|lia|lia]. }
  split; [apply Z.mod_pos_bound; lia|].
  split; [apply Z.mod_pos_bound; lia|]. split.
  - intros HK. split.
    + unfold get_sessionKey, throwIfDisposed, validateIdentitySet, bind, read,
        throw, ret.
      rewrite Hd, (string_is_empty_false _ Hp), HK. cbn [truthy_buffer negb].
      rewrite HS. reflexivity.
    + unfold computeProof, throwIfDisposed, validateIdentitySet, bind, read,
        throw, ret, lift.
      rewrite Hd, (string_is_empty_false _ Hp), HK. cbn [truthy_buffer negb].
      rewrite HS.
      change (_salt this') with (_salt this).
      change (_K this') with (Some K).
      change (_B this') with (_B this).
      change (username this') with (username this).
      change (_A this') with (_A this).
      rewrite Hs, HB. rewrite truthy_bigint_Some by lia. cbn [negb].
      change (username this') with (username this).
      change (_A this') with (_A this).
      rewrite calculateM1_ok by lia. reflexivity.
  - intros K0 HK. split.
    + unfold get_sessionKey, throwIfDisposed, validateIdentitySet, bind, read,
        throw, ret.
      rewrite Hd, (string_is_empty_false _ Hp), HK. cbn [truthy_buffer negb].
      rewrite HK. reflexivity.
    + unfold computeProof, throwIfDisposed, validateIdentitySet, bind, read,
        throw, ret, lift.
      rewrite Hd, (string_is_empty_false _ Hp), HK. cbn [truthy_buffer negb].
      rewrite Hs, HK, HB. rewrite truthy_bigint_Some by lia. cbn [negb].
      rewrite calculateM1_ok by lia. reflexivity.
Qed.

End Methods.

Lemma shared_secret_and_session_key_witness :
  let this := with_A 25 (with_a 2 example_ready_client) in
  7 - 3 * 5 ^ 1 = -8 /\
  exists K this',
    get_sessionKey (fun _ => [x01]) this = (Ok K, this') /\
    _K this' = Some K /\
    _S this' = Some (N - 512).
Proof.
  split; [reflexivity|].
  destruct (shared_secret_and_session_key (fun _ => [x01])
              (with_A 25 (with_a 2 example_ready_client)) [x01] 7)
    as (_ & _ & Hfirst & _).
  - reflexivity.
  - discriminate.
  - reflexivity.
  - reflexivity.
  - split; reflexivity.
  - split; reflexivity.
  - destruct (Hfirst eq_refl) as [E _].
    eexists. eexists. split; [exact E|].
    split; [reflexivity|vm_compute; reflexivity].
Defined.

(** *** The serverPublicKey setter *)

Lemma set_serverPublicKey_wrong_size (randomBytes : RandomSource)
    (this : SRPClient) (value : Buffer) :
  disposed this = false ->
  Buffer_length value <> SRP_KEY_LENGTH_BYTES ->
  set_serverPublicKey randomBytes value this =
  (Throw (SRPError (ServerPublicKeyWrongSize SRP_KEY_LENGTH_BYTES
                      (Buffer_length value))), this).
Proof.
  intros Hd Hlen.
  unfold set_serverPublicKey, throwIfDisposed, bind, read, throw, ret.
  rewrite Hd.
  destruct (Z.eqb_spec (Buffer_length value) SRP_KEY_LENGTH_BYTES); [lia|].
  reflexivity.
Qed.

(** A key of the right size and out of range is rejected, after it has been
    stored in [_B]. *)
Lemma set_serverPublicKey_out_of_range (randomBytes : RandomSource)
    (this : SRPClient) (value : Buffer) :
  disposed this = false ->
  Buffer_length value = SRP_KEY_LENGTH_BYTES ->
  bufferToBigInt value <= 1 \/ N - 1 <= bufferToBigInt value ->
  set_serverPublicKey randomBytes value this =
  (Throw (SRPError ServerPublicKeyOutOfRange),
   with_B (Some (bufferToBigInt value)) this).
Proof.
  intros Hd Hlen HB.
  unfold set_serverPublicKey, throwIfDisposed, bind, read, throw, ret, update.
  rewrite Hd.
  destruct (Z.eqb_spec (Buffer_length value) SRP_KEY_LENGTH_BYTES); [|lia].
  cbn [negb]. unfold N_MINUS_ONE, ONE.
  destruct (Z.leb_spec (bufferToBigInt value) 1);
    [reflexivity|].
  destruct (Z.geb_spec (bufferToBigInt value) (N - 1)); [reflexivity|lia].
Qed.

Lemma set_serverPublicKey_disposed (randomBytes : RandomSource)
    (this : SRPClient) (value : Buffer) :
  disposed this = true ->
  set_serverPublicKey randomBytes value this =
  (Throw (SRPError ClientDisposed), this).
Proof.
  intros Hd.
  unfold set_serverPublicKey, throwIfDisposed, bind, read, throw, ret.
  rewrite Hd. reflexivity.
Qed.

(** C2.  Assigning [serverPublicKey] raises an [SRPError] whenever the buffer
    is not 384 bytes long and, for a 384-byte buffer, whenever the integer
    [B] it encodes has [B <= 1] or [B >= N - 1]; on a client that is not
    disposed the error is the size error in the first case and the range
    error in the second.  The 384-byte encodings of [0], [1], [N - 1] and [N]
    are all rejected with the range error. *)
Theorem serverPublicKey_rejects_bad_keys :
  (forall (randomBytes : RandomSource) (this : SRPClient) (value : Buffer),
     Buffer_length value <> SRP_KEY_LENGTH_BYTES \/
     bufferToBigInt value <= 1 \/ N - 1 <= bufferToBigInt value ->
     (exists e this',
        set_serverPublicKey randomBytes value this = (Throw e, this') /\
        is_SRPError e = true) /\
     (disposed this = false ->
      fst (set_serverPublicKey randomBytes value this) =
      Throw (SRPError
               (if Buffer_length value =? SRP_KEY_LENGTH_BYTES
                then ServerPublicKeyOutOfRange
                else ServerPublicKeyWrongSize SRP_KEY_LENGTH_BYTES
                       (Buffer_length value))))) /\
  (forall (randomBytes : RandomSource) (this : SRPClient) (B : Z),
     disposed this = false ->
     In B [0; 1; N - 1; N] ->
     exists value,
       bigIntToBuffer B SRP_KEY_LENGTH_BYTES = Ok value /\
       Buffer_length value = 384 /\
       fst (set_serverPublicKey randomBytes value this) =
       Throw (SRPError ServerPublicKeyOutOfRange)).
Proof.
  split.
  - intros randomBytes this value Hbad. split.
    + destruct (disposed this) eqn:Hd.
      * rewrite set_serverPublicKey_disposed by assumption.
        now exists (SRPError ClientDisposed), this.
      * destruct (Z.eq_dec (Buffer_length value) SRP_KEY_LENGTH_BYTES)
          as [Hlen|Hlen].
        -- rewrite set_serverPublicKey_out_of_range by (assumption || tauto).
           now eexists _, _.
        -- rewrite set_serverPublicKey_wrong_size by assumption.
           now eexists _, _.
    + intros Hd.
      destruct (Z.eqb_spec (Buffer_length value) SRP_KEY_LENGTH_BYTES)
        as [Hlen|Hlen].
      * now rewrite set_serverPublicKey_out_of_range by (assumption || tauto).
      * now rewrite set_serverPublicKey_wrong_size by assumption.
  - intros randomBytes this B Hd HB.
    pose proof N_bounds as [HN1 HN2].
    assert (Hfit : 0 <= B < 256 ^ SRP_KEY_LENGTH_BYTES)
      by (cbn [In] in HB; lia).
    exists (be_bytes 384 B).
    pose proof (bigIntToBuffer_fits B Hfit) as Hbuf.
    destruct (bufferToBigInt_bigIntToBuffer B SRP_KEY_LENGTH_BYTES _
                ltac:(unfold SRP_KEY_LENGTH_BYTES; lia) Hbuf) as [Hval Hlen].
    split; [exact Hbuf|]. split; [exact Hlen|].
    rewrite set_serverPublicKey_out_of_range; [reflexivity|assumption..|].
    rewrite Hval. cbn [In] in HB. lia.
Qed.

Lemma serverPublicKey_rejects_bad_keys_witness :
  (exists e this',
     set_serverPublicKey example_random [x01; x02] example_client =
       (Throw e, this') /\
     is_SRPError e = true) /\
  exists value,
    bigIntToBuffer (N - 1) SRP_KEY_LENGTH_BYTES = Ok value /\
    Buffer_length value = 384 /\
    fst (set_serverPublicKey example_random value example_client) =
    Throw (SRPError ServerPublicKeyOutOfRange).
Proof.
  split.
  - apply (proj1 serverPublicKey_rejects_bad_keys example_random
             example_client [x01; x02]).
    left. discriminate.
  - apply (proj2 serverPublicKey_rejects_bad_keys example_random
             example_client (N - 1)).
    + reflexivity.
    + right. right. left. reflexivity.
Defined.


(** *** Disposal *)

Lemma dispose_live (this : SRPClient) :
  disposed this = false ->
  dispose this =
  (Ok tt,
   with_disposed true
     (with_B None
        (with_S None
           (with_salt None
              (match _K this with
               | Some K_ =>
                   with_K (Some (Buffer_fill K_ 0))
                     (with_a ZERO (with_password "" this))
               | None => with_a ZERO (with_password "" this)
               end))))).
Proof.
  intros Hd. unfold dispose, bind, read, update, ret. rewrite Hd.
  cbn [_K with_a with_password with_identity].
  destruct (_K this); reflexivity.
Qed.

Lemma dispose_disposed (this : SRPClient) :
  disposed this = true -> dispose this = (Ok tt, this).
Proof.
  intros Hd. unfold dispose, bind, read, update, ret. now rewrite Hd.
Qed.

(** C7, as the client has it.  After [dispose()] on a live client,
    [setIdentity], the [salt] and [serverPublicKey] setters, the [publicKey]
    getter, [computeProof] and the [sessionKey] getter raise the
    use-after-dispose error and leave the state as it is; the [salt] and
    [serverPublicKey] getters raise nothing and return [null]; [isReady] and
    [hasSessionKey] return [false]; and a second [dispose()] raises nothing
    and changes nothing. *)
Theorem use_after_dispose (this : SRPClient) :
  disposed this = false ->
  let d := snd (dispose this) in
  let disposed_error := (Throw (SRPError ClientDisposed), d) in
  fst (dispose this) = Ok tt /\
  disposed d = true /\
  (forall username password, setIdentity username password d = disposed_error) /\
  (forall randomBytes value, set_salt randomBytes value d = disposed_error) /\
  (forall randomBytes value,
     set_serverPublicKey randomBytes value d = disposed_error) /\
  get_publicKey d = (Throw (SRPError ClientDisposed), d) /\
  (forall hash, computeProof hash d = (Throw (SRPError ClientDisposed), d)) /\
  (forall hash, get_sessionKey hash d = (Throw (SRPError ClientDisposed), d)) /\
  get_salt d = (Ok None, d) /\
  get_serverPublicKey d = (Ok None, d) /\
  isReady d = (Ok false, d) /\
  hasSessionKey d = (Ok false, d) /\
  dispose d = (Ok tt, d).
Proof.
  intros Hd d disposed_error.
  assert (Hdd : disposed d = true)
    by (unfold d; rewrite dispose_live by assumption; reflexivity).
  assert (Hsalt : _salt d = None)
    by (unfold d; rewrite dispose_live by assumption; reflexivity).
  assert (HB : _B d = None)
    by (unfold d; rewrite dispose_live by assumption; reflexivity).
  unfold disposed_error.
  split; [now rewrite dispose_live|]. split; [exact Hdd|].
  repeat split; intros;
    try (unfold setIdentity, set_salt, set_serverPublicKey, get_publicKey,
           computeProof, get_sessionKey, throwIfDisposed, bind, read, throw, ret;
         rewrite Hdd; reflexivity).
  - unfold get_salt, read. now rewrite Hsalt.
  - unfold get_serverPublicKey, bind, read, ret. now rewrite HB.
  - unfold isReady, bind, read, ret. now rewrite Hdd.
  - unfold hasSessionKey, bind, read, ret. now rewrite Hdd.
  - now apply dispose_disposed.
Qed.

Lemma use_after_dispose_witness :
  let d := snd (dispose example_ready_client) in
  get_publicKey d = (Throw (SRPError ClientDisposed), d) /\
  get_salt d = (Ok None, d) /\
  dispose d = (Ok tt, d).
Proof.
  destruct (use_after_dispose example_ready_client eq_refl)
    as (_ & _ & _ & _ & _ & Hpk & _ & _ & Hsalt & _ & _ & _ & Hdisp).
  exact (conj Hpk (conj Hsalt Hdisp)).
Defined.

(** C7 as stated fails on the two getters: after [dispose()] the [salt]
    getter returns [null] and raises nothing. *)
Lemma salt_getter_after_dispose_counterexample :
  ~ (forall this : SRPClient,
       disposed this = false ->
       exists e this',
         get_salt (snd (dispose this)) = (Throw e, this') /\
         is_use_after_dispose e = true).
Proof.
  intros H. destruct (H example_ready_client eq_refl) as (e & this' & E & _).
  discriminate E.
Qed.

(** *** Key generation *)

(** One turn of the loop on a draw it accepts. *)
Lemma valid_private_key_spec (randomBits : Buffer) (a : Z) :
  a = bufferToBigInt randomBits ->
  valid_private_key randomBits = true ->
  (a >=? N) = false /\ (a =? ZERO) = false /\
  ((modPow g a N <=? ONE) || (modPow g a N >=? N_MINUS_ONE)) = false /\
  0 < a < N /\ 1 < modPow g a N < N - 1.
Proof.
  intros -> H. unfold valid_private_key in H.
  set (a := bufferToBigInt randomBits) in *.
  apply andb_prop in H as [H H3]. apply andb_prop in H as [H1 H2].
  apply negb_true_iff in H1, H2, H3.
  pose proof (bufferToBigInt_nonneg randomBits) as Hnn. fold a in Hnn.
  repeat split; try assumption.
  - unfold ZERO in H2. lia.
  - lia.
  - apply orb_false_elim in H3 as [H3 _]. unfold ONE in H3. lia.
  - apply orb_false_elim in H3 as [_ H3]. unfold N_MINUS_ONE, ONE in H3. lia.
Qed.

(** The loop touches the fields [_a] and [_A] only. *)
Lemma generateClientKeys_loop_frame (randomBytes : RandomSource)
    (remaining attempts : nat) (this : SRPClient) :
  let this' := snd (generateClientKeys_loop randomBytes remaining attempts this) in
  this' = with_A (_A this') (with_a (_a this') this).
Proof.
  revert attempts this.
  induction remaining as [|remaining IH]; intros attempts this.
  - destruct this; reflexivity.
  - cbn [generateClientKeys_loop]. unfold bind, update, read, ret.
    cbn [_a with_a].
    set (a := bufferToBigInt (randomBytes attempts)).
    assert (Hrec : forall st,
               st = with_a a this \/ st = with_A (modPow g a N) (with_a a this) ->
               let st' := snd (generateClientKeys_loop randomBytes remaining
                                 (S attempts) st) in
               st' = with_A (_A st') (with_a (_a st') this)).
    { intros st Hst st'. unfold st'. rewrite IH at 1.
      destruct Hst as [-> | ->]; destruct this; reflexivity. }
    destruct (a >=? N); [apply Hrec; now left|].
    destruct (a =? ZERO); [apply Hrec; now left|].
    cbn [_A with_A].
    destruct ((modPow g a N <=? ONE) || (modPow g a N >=? N_MINUS_ONE));
      [apply Hrec; now right|].
    destruct this; reflexivity.
Qed.

(** With an acceptable draw among those it may still make, the loop returns,
    leaving valid keys. *)
Lemma generateClientKeys_loop_succeeds (randomBytes : RandomSource)
    (remaining attempts : nat) (this : SRPClient) :
  (exists i, (attempts <= i < attempts + remaining)%nat /\
             valid_private_key (randomBytes i) = true) ->
  exists this',
    generateClientKeys_loop randomBytes remaining attempts this = (Ok tt, this') /\
    1 < _A this' < N - 1 /\ 0 < _a this' < N /\
    _A this' = modPow g (_a this') N.
Proof.
  revert attempts this.
  induction remaining as [|remaining IH]; intros attempts this (i & Hi & Hv).
  - lia.
  - cbn [generateClientKeys_loop]. unfold bind, update, read, ret.
    cbn [_a with_a].
    set (a := bufferToBigInt (randomBytes attempts)).
    assert (Hnext : valid_private_key (randomBytes attempts) = false ->
                    exists j, (S attempts <= j < S attempts + remaining)%nat /\
                              valid_private_key (randomBytes j) = true).
    { intros Hinv. exists i. split; [|exact Hv].
      destruct (Nat.eq_dec i attempts) as [->|]; [congruence|lia]. }
    destruct (valid_private_key (randomBytes attempts)) eqn:Hva.
    + destruct (valid_private_key_spec _ a eq_refl Hva)
        as (H1 & H2 & H3 & Ha & HA).
      rewrite H1, H2. cbn [_A with_A].
      rewrite H3. eexists. split; [reflexivity|].
      cbn [_A _a with_A with_a]. repeat split; lia.
    + unfold valid_private_key in Hva. fold a in Hva.
      destruct (a >=? N); [apply IH; now apply Hnext|].
      destruct (a =? ZERO); [apply IH; now apply Hnext|].
      cbn [_A with_A].
      destruct ((modPow g a N <=? ONE) || (modPow g a N >=? N_MINUS_ONE));
        [apply IH; now apply Hnext|].
      discriminate Hva.
Qed.

(** A valid server key, arriving after the salt on a live client with an
    identity, is stored and triggers the key generation: the client then
    holds what the computation of the shared secret asks for. *)
Lemma valid_server_key_generates_keys (randomBytes : RandomSource)
    (this : SRPClient) (value salt : Buffer) :
  disposed this = false ->
  password this <> ""%string ->
  keysGenerated this = false ->
  _salt this = Some salt ->
  Buffer_length value = SRP_KEY_LENGTH_BYTES ->
  1 < bufferToBigInt value < N - 1 ->
  (exists i, (i < 100)%nat /\ valid_private_key (randomBytes i) = true) ->
  exists this',
    set_serverPublicKey randomBytes value this = (Ok tt, this') /\
    this' = with_keysGenerated true
              (with_A (_A this') (with_a (_a this')
                 (with_B (Some (bufferToBigInt value)) this))) /\
    1 < _A this' < N - 1 /\
    _A this' = modPow g (_a this') N /\
    isReady this' = (Ok true, this') /\
    get_publicKey this' = (Ok (be_bytes 384 (_A this')), this').
Proof.
  intros Hd Hp Hkg Hs Hlen HB (i & Hi & Hv).
  set (B := bufferToBigInt value) in *.
  set (st := with_B (Some B) this).
  destruct (generateClientKeys_loop_succeeds randomBytes
              (Z.to_nat MAX_KEY_GENERATION_ATTEMPTS) 0 st)
    as (st' & Hloop & HA & Ha & HAa).
  { exists i. split; [|exact Hv]. unfold MAX_KEY_GENERATION_ATTEMPTS. lia. }
  pose proof (generateClientKeys_loop_frame randomBytes
                (Z.to_nat MAX_KEY_GENERATION_ATTEMPTS) 0 st) as Hframe.
  rewrite Hloop in Hframe. cbn [snd] in Hframe.
  exists (with_keysGenerated true st').
  assert (Hset : set_serverPublicKey randomBytes value this =
                 (Ok tt, with_keysGenerated true st')).
  { unfold set_serverPublicKey, throwIfDisposed, generateClientKeysIfReady,
      generateClientKeys, validateIdentitySet, bind, read, throw, ret, update.
    rewrite Hd.
    destruct (Z.eqb_spec (Buffer_length value) SRP_KEY_LENGTH_BYTES); [|lia].
    cbn [negb]. fold B. fold st. unfold N_MINUS_ONE, ONE, ZERO.
    destruct (Z.leb_spec B 1); [lia|].
    destruct (Z.geb_spec B (N - 1)); [lia|]. cbn [orb].
    rewrite Z.rem_small by lia.
    destruct (Z.eqb_spec B 0); [lia|].
    change (_salt st) with (_salt this). change (_B st) with (Some B).
    change (keysGenerated st) with (keysGenerated this).
    rewrite Hs, Hkg, truthy_bigint_Some by lia. cbn [truthy_buffer andb negb].
    change (password st) with (password this).
    rewrite (string_is_empty_false _ Hp), Hloop. reflexivity. }
  split; [exact Hset|].
  split; [rewrite Hframe at 1; reflexivity|].
  split; [exact HA|]. split; [exact HAa|]. split.
  - rewrite Hframe. unfold isReady, bind, read, ret.
    cbn [disposed _salt _B keysGenerated with_keysGenerated with_A with_a st
         with_B].
    rewrite Hd, Hs, truthy_bigint_Some by lia. reflexivity.
  - unfold get_publicKey, throwIfDisposed, bind, read, throw, ret, lift.
    change (disposed (with_keysGenerated true st')) with (disposed st').
    change (_A (with_keysGenerated true st')) with (_A st').
    replace (disposed st') with (disposed this)
      by (rewrite Hframe; reflexivity).
    rewrite Hd. unfold ZERO.
    change (_A (with_keysGenerated true st')) with (_A st').
    destruct (Z.eqb_spec (_A st') 0); [lia|].
    rewrite bigIntToBuffer_below_N by lia. reflexivity.
Qed.

(** The stored [0n] counts as no server key: whatever the client, a salt
    assigned while [_B] is 0 is stored and no key is generated. *)
Lemma set_salt_with_zero_key (randomBytes : RandomSource)
    (this : SRPClient) (salt : Buffer) :
  disposed this = false ->
  _B this = Some 0 ->
  salt <> [] ->
  set_salt randomBytes salt this = (Ok tt, with_salt (Some salt) this) /\
  isReady (with_salt (Some salt) this) =
    (Ok false, with_salt (Some salt) this).
Proof.
  intros Hd HB Hsalt. split.
  - unfold set_salt, throwIfDisposed, generateClientKeysIfReady, bind, read,
      throw, ret, update.
    rewrite Hd.
    destruct (Z.eqb_spec (Buffer_length salt) 0) as [E|_].
    { destruct salt; [congruence|]. unfold Buffer_length in E. cbn in E. lia. }
    change (_B (with_salt (Some salt) this)) with (_B this). rewrite HB.
    change (_salt (with_salt (Some salt) this)) with (Some salt).
    reflexivity.
  - unfold isReady, bind, read, ret.
    change (_B (with_salt (Some salt) this)) with (_B this). rewrite HB.
    change (disposed (with_salt (Some salt) this)) with (disposed this).
    rewrite Hd.
    change (_salt (with_salt (Some salt) this)) with (Some salt).
    reflexivity.
Qed.

(** C9, as the client has it.  On a live client, assigning a 384-byte
    [serverPublicKey] whose integer [B] is outside [(1, N - 1)] raises the
    range error and leaves [B] stored, nothing else being changed.  When [B]
    is not 0, on a client with an identity and no keys yet, a later
    assignment of a non-empty [salt], with a source of randomness that offers
    an acceptable private key within 100 draws, generates the client keys
    with the rejected [B] still in place, and [isReady()] then returns
    [true].  When [B] is 0, the stored [0n] counts as no key on any live
    client: the later assignment of a non-empty [salt] returns, stores the
    salt and changes nothing else, so no key is generated, and [isReady()]
    returns [false]. *)
Theorem rejected_server_key_stays_stored
    (randomBytes1 randomBytes2 : RandomSource) (this : SRPClient)
    (value salt : Buffer) :
  disposed this = false ->
  Buffer_length value = SRP_KEY_LENGTH_BYTES ->
  bufferToBigInt value <= 1 \/ N - 1 <= bufferToBigInt value ->
  salt <> [] ->
  let B := bufferToBigInt value in
  let this1 := with_B (Some B) this in
  set_serverPublicKey randomBytes1 value this =
    (Throw (SRPError ServerPublicKeyOutOfRange), this1) /\
  (B <> 0 ->
   password this <> ""%string ->
   keysGenerated this = false ->
   (exists i, (i < 100)%nat /\ valid_private_key (randomBytes2 i) = true) ->
   exists this2,
     set_salt randomBytes2 salt this1 = (Ok tt, this2) /\
     this2 = with_keysGenerated true
               (with_A (_A this2) (with_a (_a this2)
                  (with_salt (Some salt) this1))) /\
     _B this2 = Some B /\
     _salt this2 = Some salt /\
     keysGenerated this2 = true /\
     1 < _A this2 < N - 1 /\
     isReady this2 = (Ok true, this2)) /\
  (B = 0 ->
   let this2 := with_salt (Some salt) this1 in
   set_salt randomBytes2 salt this1 = (Ok tt, this2) /\
   _B this2 = Some 0 /\
   keysGenerated this2 = keysGenerated this /\
   _a this2 = _a this /\ _A this2 = _A this /\
   isReady this2 = (Ok false, this2)).
Proof.
  intros Hd Hlen Hrange Hsalt B this1.
  split; [now apply set_serverPublicKey_out_of_range|]. split.
  - intros HB0 Hp Hkg (i & Hi & Hv).
    set (st := with_salt (Some salt) this1).
    destruct (generateClientKeys_loop_succeeds randomBytes2
                (Z.to_nat MAX_KEY_GENERATION_ATTEMPTS) 0 st)
      as (st' & Hloop & HA & Ha & _).
    { exists i. split; [|exact Hv]. unfold MAX_KEY_GENERATION_ATTEMPTS. lia. }
    pose proof (generateClientKeys_loop_frame randomBytes2
                  (Z.to_nat MAX_KEY_GENERATION_ATTEMPTS) 0 st) as Hframe.
    rewrite Hloop in Hframe. cbn [snd] in Hframe.
    exists (with_keysGenerated true st').
    assert (Hset : set_salt randomBytes2 salt this1 =
                   (Ok tt, with_keysGenerated true st')).
    { unfold set_salt, throwIfDisposed, generateClientKeysIfReady,
        generateClientKeys, validateIdentitySet, bind, read, throw, ret,
        update.
      change (disposed this1) with (disposed this). rewrite Hd.
      destruct (Z.eqb_spec (Buffer_length salt) 0) as [E|_].
      { destruct salt; [congruence|]. unfold Buffer_length in E. cbn in E.
        lia. }
      fold st.
      change (_salt st) with (Some salt). change (_B st) with (Some B).
      change (keysGenerated st) with (keysGenerated this). rewrite Hkg.
      rewrite truthy_bigint_Some by assumption. cbn [truthy_buffer andb negb].
      change (password st) with (password this).
      rewrite (string_is_empty_false _ Hp), Hloop. reflexivity. }
    split; [exact Hset|].
    split; [rewrite Hframe at 1; reflexivity|].
    rewrite Hframe.
    split; [reflexivity|]. split; [reflexivity|]. split; [reflexivity|].
    split; [exact HA|].
    unfold isReady, bind, read, ret.
    cbn [disposed _salt _B keysGenerated with_keysGenerated with_A with_a st
         with_salt this1 with_B].
    rewrite Hd, truthy_bigint_Some by assumption. reflexivity.
  - intros HB0 this2.
    assert (HB1 : _B this1 = Some 0) by (unfold this1; cbn [_B with_B]; now rewrite HB0).
    destruct (set_salt_with_zero_key randomBytes2 this1 salt Hd HB1 Hsalt)
      as [Hset Hready].
    split; [exact Hset|]. split; [exact HB1|].
    split; [reflexivity|]. split; [reflexivity|]. split; [reflexivity|].
    exact Hready.
Qed.

Lemma rejected_server_key_stays_stored_witness :
  (exists this1 this2,
     set_serverPublicKey example_random (be_bytes 384 1) example_client =
       (Throw (SRPError ServerPublicKeyOutOfRange), this1) /\
     _B this1 = Some 1 /\
     set_salt example_random [x05] this1 = (Ok tt, this2) /\
     _B this2 = Some 1 /\
     _salt this2 = Some [x05] /\
     keysGenerated this2 = true /\
     1 < _A this2 < N - 1 /\
     isReady this2 = (Ok true, this2)) /\
  (exists this1 this2,
     set_serverPublicKey example_random (be_bytes 384 0) example_ready_client =
       (Throw (SRPError ServerPublicKeyOutOfRange), this1) /\
     _B this1 = Some 0 /\
     set_salt example_random [x05] this1 = (Ok tt, this2) /\
     _A this2 = 5 /\
     isReady this2 = (Ok false, this2)).
Proof.
  split.
  - destruct (rejected_server_key_stays_stored example_random example_random
                example_client (be_bytes 384 1) [x05])
      as (Hset & Hnonzero & _).
    + reflexivity.
    + vm_compute. reflexivity.
    + left. vm_compute. discriminate.
    + discriminate.
    + destruct Hnonzero as (this2 & Hsalt & _ & HB & Hs & Hkg & HA & Hready).
      * vm_compute. discriminate.
      * discriminate.
      * reflexivity.
      * exists 0%nat. split; [lia|vm_compute; reflexivity].
      * eexists. exists this2. split; [exact Hset|].
        split; [vm_compute; reflexivity|]. split; [exact Hsalt|].
        split; [rewrite HB; vm_compute; reflexivity|].
        split; [exact Hs|]. split; [exact Hkg|]. split; [exact HA|].
        exact Hready.
  - destruct (rejected_server_key_stays_stored example_random example_random
                example_ready_client (be_bytes 384 0) [x05])
      as (Hset & _ & Hzero).
    + reflexivity.
    + vm_compute. reflexivity.
    + left. vm_compute. discriminate.
    + discriminate.
    + destruct Hzero as (Hsalt & _ & _ & _ & HA & Hready).
      * vm_compute. reflexivity.
      * eexists. eexists. split; [exact Hset|].
        split; [vm_compute; reflexivity|]. split; [exact Hsalt|].
        split; [rewrite HA; reflexivity|]. exact Hready.
Defined.

(** C9 as stated fails for the rejected key [B = 0]: the stored [0n] is
    falsy, so the later salt assignment generates no keys and [isReady()]
    returns [false]. *)
Lemma rejected_zero_key_counterexample :
  let value := repeat x00 384 in
  let after_key := set_serverPublicKey example_random value example_client in
  let after_salt := set_salt example_random [x05] (snd after_key) in
  Buffer_length value = 384 /\
  bufferToBigInt value <= 1 /\
  fst after_key = Throw (SRPError ServerPublicKeyOutOfRange) /\
  _B (snd after_key) = Some 0 /\
  fst after_salt = Ok tt /\
  keysGenerated (snd after_salt) = false /\
  fst (isReady (snd after_salt)) = Ok false.
Proof.
  vm_compute. repeat split; discriminate.
Qed.

End SRPFacts.

(** ** More on the TLV8 encoder *)

Module TLV8More.
Import TLV8 TLV8Facts.

Lemma parse_records_step (t l : byte) (rest : Buffer) :
  parse_records (t :: l :: rest) =
  if le_dec (Z.to_nat (byte_val l)) (length rest) then
    option_map
      (cons {| rec_type := t; rec_length := l;
               rec_payload := firstn (Z.to_nat (byte_val l)) rest |})
      (parse_records (skipn (Z.to_nat (byte_val l)) rest))
  else None.
Proof.
  simp parse_records.
  destruct (le_dec (Z.to_nat (byte_val l)) (length rest)); reflexivity.
Qed.

(** Reading a stream that starts with a complete sequence of records. *)
Lemma parse_records_app (x y : Buffer) (rx : list TLV8Record) :
  parse_records x = Some rx ->
  parse_records (x ++ y) = option_map (app rx) (parse_records y).
Proof.
  remember (length x) as n eqn:Hn. revert x rx Hn.
  induction n as [n IH] using lt_wf_ind; intros x rx Hn Hx.
  destruct x as [|t [|l rest]].
  - simp parse_records in Hx. injection Hx as Hx. subst rx. cbn.
    now destruct (parse_records y).
  - simp parse_records in Hx. discriminate.
  - rewrite parse_records_step in Hx. cbn [app].
    rewrite parse_records_step.
    destruct (le_dec (Z.to_nat (byte_val l)) (length rest)) as [Hle|Hgt];
      [|discriminate].
    destruct (le_dec (Z.to_nat (byte_val l)) (length (rest ++ y)))
      as [Hle'|Hgt].
    2:{ exfalso. apply Hgt. rewrite length_app. lia. }
    destruct (parse_records (skipn (Z.to_nat (byte_val l)) rest))
      as [rtail|] eqn:Htail; [|discriminate].
    cbn [option_map] in Hx. injection Hx as Hx. subst rx.
    rewrite firstn_app, skipn_app.
    replace (Z.to_nat (byte_val l) - length rest)%nat with 0%nat by lia.
    cbn [firstn skipn]. rewrite app_nil_r.
    rewrite (IH (length (skipn (Z.to_nat (byte_val l)) rest))
               ltac:(rewrite Hn, length_skipn; cbn [length]; lia)
               _ rtail eq_refl Htail).
    now destruct (parse_records y).
Qed.

(** X2.  Whatever the items, the output is a well-formed sequence of records:
    it reads as records from its first byte to its last, every record carries
    between 1 and 255 bytes, as many as its length byte says, so no record
    of length 0 is ever emitted, and the payloads, in order, are the data of
    the items, in order. *)
Theorem encodeTLV8_stream_well_formed (items : list TLV8Item) :
  exists recs,
    parse_records (encodeTLV8 items) = Some recs /\
    Forall (fun r => 1 <= byte_val (rec_length r) <= 255 /\
                     Buffer_length (rec_payload r) = byte_val (rec_length r))
      recs /\
    concat (map rec_payload recs) = concat (map data items).
Proof.
  induction items as [|[t d] items (recs & Hparse & Hlen & Hpay)].
  - exists []. repeat split. constructor.
  - destruct (item_records t d 0
                ltac:(pose proof (Buffer_length_nonneg d); lia))
      as (ritem & Hitem & _ & Hipay & Hilen).
    exists (ritem ++ recs). rewrite encodeTLV8_cons. cbn [type data].
    rewrite (parse_records_app _ _ _ Hitem), Hparse. cbn [option_map].
    split; [reflexivity|]. split.
    + apply Forall_app. split; [|exact Hlen].
      rewrite Z.sub_0_r in Hilen.
      assert (Hin : Forall (fun p : Z * Z => 1 <= fst p <= 255 /\ snd p = fst p)
                      (map (fun r => (byte_val (rec_length r),
                                      Buffer_length (rec_payload r))) ritem)).
      { rewrite Hilen. apply Forall_app. split.
        - apply Forall_forall. intros p Hp. apply repeat_spec in Hp.
          subst p. cbn. lia.
        - destruct (Z.eqb_spec (Buffer_length d mod 255) 0); constructor;
            [|constructor].
          cbn. pose proof (Z.mod_pos_bound (Buffer_length d) 255). lia. }
      rewrite Forall_map in Hin. exact Hin.
    + rewrite map_app, concat_app, Hipay, Hpay. reflexivity.
Qed.


Lemma item_bytes_length (t : Z) (d : Buffer) (off : Z) :
  0 <= off <= Buffer_length d ->
  Buffer_length (concat (fragment_loop t d off [])) =
  (Buffer_length d - off) + 2 * ((Buffer_length d - off + 254) / 255).
Proof.
  remember (Z.to_nat (Buffer_length d - off)) as n eqn:Hn.
  revert off Hn.
  induction n as [n IH] using lt_wf_ind; intros off Hn Hoff.
  destruct (Z.eq_dec off (Buffer_length d)) as [Heq|Hne].
  - rewrite item_bytes_done by lia.
    replace (Buffer_length d - off) with 0 by lia. reflexivity.
  - rewrite item_bytes_step by lia.
    set (len := Z.min TLV8_MAX_FRAGMENT_SIZE (Buffer_length d - off)).
    assert (Hlen : 1 <= len <= 255 /\ len <= Buffer_length d - off)
      by (unfold len, TLV8_MAX_FRAGMENT_SIZE; lia).
    assert (Hdef : len = Z.min 255 (Buffer_length d - off)) by reflexivity.
    change (u8 t :: u8 len :: ?x) with ([u8 t; u8 len] ++ x).
    rewrite !Buffer_length_app.
    rewrite (IH (Z.to_nat (Buffer_length d - (off + len))) ltac:(lia)
               (off + len) eq_refl ltac:(lia)).
    replace (Buffer_length (firstn (Z.to_nat len) (skipn (Z.to_nat off) d)))
      with len
      by (unfold Buffer_length in *; rewrite length_firstn, length_skipn; lia).
    change (Buffer_length [u8 t; u8 len]) with 2.
    clearbody len.
    replace (Buffer_length d - (off + len)) with (Buffer_length d - off - len)
      by lia.
    generalize dependent (Buffer_length d - off). intros m; intros.
    destruct (Z_lt_dec m 255).
    + replace len with m by lia. replace (m - m) with 0 by lia.
      replace ((m + 254) / 255) with 1
        by (apply Z.div_unique with (r := m - 1); lia).
      change ((0 + 254) / 255) with 0. lia.
    + replace len with 255 by lia.
      replace (m + 254) with ((m - 255 + 254) + 1 * 255) by lia.
      rewrite Z.div_add by lia. lia.
Qed.

(** X3.  The size of the output: every item costs its data plus two header
    bytes for each started block of 255 data bytes, and nothing at all when
    its data is empty. *)
Theorem encodeTLV8_length (items : list TLV8Item) :
  Buffer_length (encodeTLV8 items) =
  fold_right
    (fun item total =>
       Buffer_length (data item) +
       2 * ((Buffer_length (data item) + 254) / 255) + total)
    0 items.
Proof.
  induction items as [|item items IH]; [reflexivity|].
  rewrite encodeTLV8_cons, Buffer_length_app, IH.
  rewrite item_bytes_length by (pose proof (Buffer_length_nonneg (data item)); lia).
  cbn [fold_right]. rewrite Z.sub_0_r. reflexivity.
Qed.

(** The bytes emitted from an offset on depend on the type through its low
    eight bits only. *)
Lemma item_bytes_type (t t' : Z) (d : Buffer) (off : Z) :
  u8 t = u8 t' ->
  0 <= off <= Buffer_length d ->
  concat (fragment_loop t d off []) = concat (fragment_loop t' d off []).
Proof.
  intros Ht.
  remember (Z.to_nat (Buffer_length d - off)) as n eqn:Hn.
  revert off Hn.
  induction n as [n IH] using lt_wf_ind; intros off Hn Hoff.
  destruct (Z.eq_dec off (Buffer_length d)) as [Heq|Hne].
  - now rewrite (item_bytes_done t), (item_bytes_done t') by lia.
  - rewrite (item_bytes_step t), (item_bytes_step t') by lia.
    set (len := Z.min TLV8_MAX_FRAGMENT_SIZE (Buffer_length d - off)).
    assert (Hlen : 1 <= len) by (unfold len, TLV8_MAX_FRAGMENT_SIZE; lia).
    assert (Hlen' : len <= Buffer_length d - off)
      by (unfold len, TLV8_MAX_FRAGMENT_SIZE; lia).
    rewrite Ht.
    rewrite (IH (Z.to_nat (Buffer_length d - (off + len))) ltac:(lia)
               (off + len) eq_refl ltac:(lia)).
    reflexivity.
Qed.

(** X5.  The type of an item is stored on one byte: types that differ by a
    multiple of 256 give the same output. *)
Theorem encodeTLV8_type_wraps (t : Z) (d : Buffer) (n : Z) :
  encodeTLV8 [{| type := t + 256 * n; data := d |}] =
  encodeTLV8 [{| type := t; data := d |}].
Proof.
  rewrite !encodeTLV8_single. cbn [type data].
  apply item_bytes_type.
  - unfold u8. rewrite Z.mul_comm, Z.mod_add by lia. reflexivity.
  - pose proof (Buffer_length_nonneg d). lia.
Qed.

(** The bytes emitted for the tail of a value are those emitted for the tail
    alone. *)
Lemma item_bytes_shift (t : Z) (d1 d2 : Buffer) (off : Z) :
  0 <= off <= Buffer_length d2 ->
  concat (fragment_loop t (d1 ++ d2) (Buffer_length d1 + off) []) =
  concat (fragment_loop t d2 off []).
Proof.
  remember (Z.to_nat (Buffer_length d2 - off)) as n eqn:Hn.
  revert off Hn.
  induction n as [n IH] using lt_wf_ind; intros off Hn Hoff.
  pose proof (Buffer_length_nonneg d1) as H1.
  destruct (Z.eq_dec off (Buffer_length d2)) as [Heq|Hne].
  - rewrite (item_bytes_done t d2) by lia.
    rewrite (item_bytes_done t (d1 ++ d2)) by (rewrite Buffer_length_app; lia).
    reflexivity.
  - rewrite (item_bytes_step t d2) by lia.
    rewrite (item_bytes_step t (d1 ++ d2)) by (rewrite Buffer_length_app; lia).
    rewrite Buffer_length_app.
    replace (Buffer_length d1 + Buffer_length d2 - (Buffer_length d1 + off))
      with (Buffer_length d2 - off) by lia.
    set (len := Z.min TLV8_MAX_FRAGMENT_SIZE (Buffer_length d2 - off)).
    assert (Hlen : 1 <= len) by (unfold len, TLV8_MAX_FRAGMENT_SIZE; lia).
    assert (Hlen' : len <= Buffer_length d2 - off)
      by (unfold len, TLV8_MAX_FRAGMENT_SIZE; lia).
    replace (Buffer_length d1 + off + len) with (Buffer_length d1 + (off + len))
      by lia.
    rewrite (IH (Z.to_nat (Buffer_length d2 - (off + len))) ltac:(lia)
               (off + len) eq_refl ltac:(lia)).
    replace (skipn (Z.to_nat (Buffer_length d1 + off)) (d1 ++ d2))
      with (skipn (Z.to_nat off) d2); [reflexivity|].
    rewrite skipn_app.
    replace (Z.to_nat (Buffer_length d1 + off) - length d1)%nat
      with (Z.to_nat off) by (unfold Buffer_length; lia).
    rewrite (skipn_all2 d1 (n := Z.to_nat (Buffer_length d1 + off)))
      by (unfold Buffer_length; lia).
    reflexivity.
Qed.

Lemma item_bytes_full_prefix (t : Z) (d1 d2 : Buffer) (off : Z) :
  0 <= off <= Buffer_length d1 ->
  (Buffer_length d1 - off) mod 255 = 0 ->
  concat (fragment_loop t (d1 ++ d2) off []) =
  concat (fragment_loop t d1 off []) ++ concat (fragment_loop t d2 0 []).
Proof.
  remember (Z.to_nat (Buffer_length d1 - off)) as n eqn:Hn.
  revert off Hn.
  induction n as [n IH] using lt_wf_ind; intros off Hn Hoff Hmod.
  pose proof (Buffer_length_nonneg d2) as H2.
  destruct (Z.eq_dec off (Buffer_length d1)) as [Heq|Hne].
  - rewrite (item_bytes_done t d1) by lia. cbn [concat app].
    replace off with (Buffer_length d1 + 0) by lia.
    apply item_bytes_shift. lia.
  - assert (Hbig : 255 <= Buffer_length d1 - off).
    { destruct (Z_lt_dec (Buffer_length d1 - off) 255); [|lia].
      rewrite Z.mod_small in Hmod by lia. lia. }
    rewrite (item_bytes_step t d1) by lia.
    rewrite (item_bytes_step t (d1 ++ d2)) by (rewrite Buffer_length_app; lia).
    rewrite Buffer_length_app.
    replace (Z.min TLV8_MAX_FRAGMENT_SIZE
               (Buffer_length d1 + Buffer_length d2 - off)) with 255
      by (unfold TLV8_MAX_FRAGMENT_SIZE; lia).
    replace (Z.min TLV8_MAX_FRAGMENT_SIZE (Buffer_length d1 - off)) with 255
      by (unfold TLV8_MAX_FRAGMENT_SIZE; lia).
    rewrite (IH (Z.to_nat (Buffer_length d1 - (off + 255))) ltac:(lia)
               (off + 255) eq_refl ltac:(lia)).
    2:{ replace (Buffer_length d1 - (off + 255))
          with (Buffer_length d1 - off + (-1) * 255) by lia.
        rewrite Z.mod_add by lia. exact Hmod. }
    cbn [app]. rewrite <- app_assoc. do 2 f_equal. f_equal.
    rewrite skipn_app, firstn_app, length_skipn.
    replace (Z.to_nat 255 - (length d1 - Z.to_nat off))%nat with 0%nat
      by (unfold Buffer_length in *; lia).
    cbn [firstn]. apply app_nil_r.
Qed.

(** X4.  Item boundaries are not marked: when the data of an item fills its
    records exactly (its length is a multiple of 255), the item and a
    following item of the same type encode like one item carrying both
    values, one after the other. *)
Theorem encodeTLV8_adjacent_items_merge (t : Z) (d1 d2 : Buffer) :
  Buffer_length d1 mod 255 = 0 ->
  encodeTLV8 [{| type := t; data := d1 |}; {| type := t; data := d2 |}] =
  encodeTLV8 [{| type := t; data := d1 ++ d2 |}].
Proof.
  intros Hmod.
  rewrite (encodeTLV8_cons {| type := t; data := d1 |}), !encodeTLV8_single.
  cbn [type data]. symmetry.
  apply item_bytes_full_prefix.
  - pose proof (Buffer_length_nonneg d1). lia.
  - now rewrite Z.sub_0_r.
Qed.

Lemma encodeTLV8_adjacent_items_merge_witness :
  encodeTLV8 [{| type := 5; data := repeat x01 255 |};
              {| type := 5; data := [x02] |}] =
  encodeTLV8 [{| type := 5; data := repeat x01 255 ++ [x02] |}].
Proof.
  apply (encodeTLV8_adjacent_items_merge 5 (repeat x01 255) [x02]).
  vm_compute. reflexivity.
Defined.

(** X1.  Items are encoded one after the other, each on its own: the output
    for a list of items is the concatenation, in order, of the outputs for
    its items, and the output for two lists put end to end is the output for
    the first followed by the output for the second. *)
Theorem encodeTLV8_concatenates_items (xs ys : list TLV8Item) :
  encodeTLV8 (xs ++ ys) = encodeTLV8 xs ++ encodeTLV8 ys /\
  encodeTLV8 xs = concat (map (fun item => encodeTLV8 [item]) xs).
Proof.
  split.
  - induction xs as [|x xs IH]; [reflexivity|].
    cbn [app]. rewrite !encodeTLV8_cons, IH. apply app_assoc.
  - induction xs as [|x xs IH]; [reflexivity|].
    cbn [map concat]. rewrite <- IH, encodeTLV8_single.
    apply encodeTLV8_cons.
Qed.

End TLV8More.

(** ** More on the OPACK2 encoder *)

Module Opack2More.
Import Opack2 Opack2Facts Opack2Kinds.

(** Induction on values, through arrays and objects. *)
Lemma SerializableValue_nested_ind (P : SerializableValue -> Prop) :
  P VNull -> P VUndefined ->
  (forall b, P (VBoolean b)) ->
  (forall num, P (VNumber num)) ->
  (forall str, P (VString str)) ->
  (forall bytes, P (VBuffer bytes)) ->
  (forall arr, Forall P arr -> P (VArray arr)) ->
  (forall entries, Forall (fun entry => P (snd entry)) entries ->
                   P (VObject entries)) ->
  forall obj, P obj.
Proof.
  intros Hnull Hundef Hbool Hnum Hstr Hbuf Harr Hobj.
  fix IH 1. intros [| |b|num|str|bytes|arr|entries].
  - exact Hnull.
  - exact Hundef.
  - apply Hbool.
  - apply Hnum.
  - apply Hstr.
  - apply Hbuf.
  - apply Harr. induction arr as [|item arr IHarr]; constructor.
    + apply IH.
    + exact IHarr.
  - apply Hobj. induction entries as [|[key value] entries IHentries];
      constructor.
    + apply IH.
    + exact IHentries.
Qed.

Ltac decide_ranges :=
  repeat match goal with
         | |- context [Z.eqb ?a ?b] => destruct (Z.eqb_spec a b); try lia
         | |- context [Z.leb ?a ?b] => destruct (Z.leb_spec a b); try lia
         | |- context [Z.ltb ?a ?b] => destruct (Z.ltb_spec a b); try lia
         end.

Lemma kind_of_first_byte_u8 (v : Z) (kind : Kind) :
  match kind with
  | KNull => v = 0x03
  | KBoolean => v = 0x01 \/ v = 0x02
  | KNumber => 0x08 <= v <= 0x30 \/ v = 0x32 \/ v = 0x33 \/ v = 0x35
  | KString => 0x40 <= v <= 0x63
  | KBuffer => 0x70 <= v <= 0x93
  | KArray => 0xd0 <= v <= 0xdf
  | KObject => 0xe0 <= v <= 0xef
  end ->
  kind_of_first_byte (u8 v) = Some kind.
Proof.
  intros H. unfold kind_of_first_byte.
  rewrite byte_val_u8_small by (destruct kind; lia).
  unfold OPACK2_NULL, OPACK2_TRUE, OPACK2_FALSE, OPACK2_SMALL_INT_OFFSET,
    OPACK2_SMALL_INT_MAX, OPACK2_INT8_MARKER, OPACK2_INT32_MARKER,
    OPACK2_INT64_MARKER, OPACK2_FLOAT_MARKER, OPACK2_SMALL_STRING_BASE,
    OPACK2_STRING_32BIT_LEN_MARKER, OPACK2_SMALL_BYTES_BASE,
    OPACK2_BYTES_32BIT_LEN_MARKER, OPACK2_SMALL_ARRAY_BASE,
    OPACK2_VARIABLE_ARRAY_MARKER, OPACK2_SMALL_DICT_BASE,
    OPACK2_VARIABLE_DICT_MARKER.
  destruct kind; cbv zeta; decide_ranges; cbn; try reflexivity; lia.
Qed.


(** The byte-string encoder as a function of the length. *)
Lemma encodeBytes_cases (bytes : Buffer) :
  encodeBytes bytes =
  let L := Buffer_length bytes in
  if L <=? 0x20 then Ok (u8 (0x70 + L) :: bytes)
  else if L <=? 0xff then Ok (x91 :: u8 L :: bytes)
  else if L <=? 0xffff then Ok (x92 :: be_bytes 2 L ++ bytes)
  else if L <=? 0xffffffff then Ok (x93 :: be_bytes 4 L ++ bytes)
  else Throw (AppleTVError (ByteArrayTooLong L)).
Proof.
  unfold encodeBytes, OPACK2_SMALL_BYTES_MAX, OPACK2_UINT8_MAX,
    OPACK2_UINT16_MAX, OPACK2_UINT32_MAX, writeUInt16BE, writeUInt32BE.
  pose proof (Buffer_length_nonneg bytes) as Hnn. cbv zeta.
  destruct (Z.leb_spec (Buffer_length bytes) 0x20);
    [cbn; now rewrite app_nil_r|].
  destruct (Z.leb_spec (Buffer_length bytes) 0xff);
    [cbn; now rewrite app_nil_r|].
  destruct (Z.leb_spec 0 (Buffer_length bytes)); [|lia]. cbn [andb].
  destruct (Z.leb_spec (Buffer_length bytes) 0xffff);
    [cbn; now rewrite app_nil_r|].
  destruct (Z.leb_spec (Buffer_length bytes) 0xffffffff);
    [cbn; now rewrite app_nil_r|].
  reflexivity.
Qed.

Lemma encodeString_cases (str : string) :
  encodeString str =
  let L := Buffer_length (utf8_encode str) in
  if L <=? 0x20 then Ok (u8 (0x40 + L) :: utf8_encode str)
  else if L <=? 0xff then Ok (x61 :: u8 L :: utf8_encode str)
  else if L <=? 0xffff then Ok (x62 :: be_bytes 2 L ++ utf8_encode str)
  else if L <=? 0xffffffff then Ok (x63 :: be_bytes 4 L ++ utf8_encode str)
  else Throw (AppleTVError (StringTooLong L)).
Proof.
  unfold encodeString, OPACK2_SMALL_STRING_MAX, OPACK2_UINT8_MAX,
    OPACK2_UINT16_MAX, OPACK2_UINT32_MAX, writeUInt16BE, writeUInt32BE.
  pose proof (Buffer_length_nonneg (utf8_encode str)) as Hnn. cbv zeta.
  destruct (Z.leb_spec (Buffer_length (utf8_encode str)) 0x20);
    [cbn; now rewrite app_nil_r|].
  destruct (Z.leb_spec (Buffer_length (utf8_encode str)) 0xff);
    [cbn; now rewrite app_nil_r|].
  destruct (Z.leb_spec 0 (Buffer_length (utf8_encode str))); [|lia].
  cbn [andb].
  destruct (Z.leb_spec (Buffer_length (utf8_encode str)) 0xffff);
    [cbn; now rewrite app_nil_r|].
  destruct (Z.leb_spec (Buffer_length (utf8_encode str)) 0xffffffff);
    [cbn; now rewrite app_nil_r|].
  reflexivity.
Qed.

Lemma be_value_be_bytes_2 (n : Z) : 0 <= n <= 0xffff -> be_value (be_bytes 2 n) = n.
Proof. intros H. apply be_value_be_bytes. cbn. lia. Qed.

Lemma be_value_be_bytes_4 (n : Z) :
  0 <= n <= 0xffffffff -> be_value (be_bytes 4 n) = n.
Proof. intros H. apply be_value_be_bytes. cbn. lia. Qed.

(** X6.  Byte strings, by length [L]: up to 0x20 bytes the header is the
    single byte [0x70 + L]; up to 0xFF it is [0x91] and the byte [L]; up to
    0xFFFF it is [0x92] and [L] on 2 bytes, big-endian; up to 0xFFFFFFFF it is
    [0x93] and [L] on 4 bytes, big-endian; the bytes follow the header
    unchanged; a longer buffer raises the byte-array-too-long error. *)
Theorem encodeBytes_by_length (bytes : Buffer) :
  let L := Buffer_length bytes in
  (L <= 0x20 ->
     encodeBytes bytes = Ok (u8 (0x70 + L) :: bytes) /\
     byte_val (u8 (0x70 + L)) = 0x70 + L) /\
  (0x20 < L <= 0xff ->
     encodeBytes bytes = Ok ([x91; u8 L] ++ bytes) /\ byte_val (u8 L) = L) /\
  (0xff < L <= 0xffff ->
     exists cells,
       encodeBytes bytes = Ok (x92 :: cells ++ bytes) /\
       length cells = 2%nat /\ be_value cells = L) /\
  (0xffff < L <= 0xffffffff ->
     exists cells,
       encodeBytes bytes = Ok (x93 :: cells ++ bytes) /\
       length cells = 4%nat /\ be_value cells = L) /\
  (0xffffffff < L ->
     encodeBytes bytes = Throw (AppleTVError (ByteArrayTooLong L))).
Proof.
  intros L. pose proof (Buffer_length_nonneg bytes) as Hnn. fold L in Hnn.
  rewrite encodeBytes_cases. cbv zeta. fold L.
  repeat split; intros; try (decide_ranges; reflexivity);
    try (apply byte_val_u8_small; lia).
  - exists (be_bytes 2 L). decide_ranges.
    repeat split. apply be_value_be_bytes_2. lia.
  - exists (be_bytes 4 L). decide_ranges.
    repeat split. apply be_value_be_bytes_4. lia.
Qed.

Lemma encodeBytes_by_length_witness :
  encodeBytes (repeat xab 33) = Ok ([x91; u8 33] ++ repeat xab 33) /\
  byte_val (u8 33) = 33.
Proof.
  apply (proj1 (proj2 (encodeBytes_by_length (repeat xab 33)))).
  vm_compute. split; [reflexivity|discriminate].
Defined.

(** X7.  A string is encoded like the byte string of its UTF-8 form, with
    the four markers lowered by 0x30 ([0x40 + L], [0x61], [0x62], [0x63] for
    [0x70 + L], [0x91], [0x92], [0x93]) and the string-too-long error for the
    byte-array-too-long one. *)
Theorem encodeString_like_bytes (str : string) :
  encodeString str =
  match encodeBytes (utf8_encode str) with
  | Ok (marker :: rest) => Ok (u8 (byte_val marker - 0x30) :: rest)
  | Ok [] => Ok []
  | Throw (AppleTVError (ByteArrayTooLong length)) =>
      Throw (AppleTVError (StringTooLong length))
  | Throw e => Throw e
  end.
Proof.
  rewrite encodeString_cases, encodeBytes_cases. cbv zeta.
  pose proof (Buffer_length_nonneg (utf8_encode str)) as Hnn.
  destruct (Z.leb_spec (Buffer_length (utf8_encode str)) 0x20).
  { rewrite byte_val_u8_small by lia. do 3 f_equal. lia. }
  destruct (Z.leb_spec (Buffer_length (utf8_encode str)) 0xff);
    [reflexivity|].
  destruct (Z.leb_spec (Buffer_length (utf8_encode str)) 0xffff);
    [reflexivity|].
  destruct (Z.leb_spec (Buffer_length (utf8_encode str)) 0xffffffff);
    reflexivity.
Qed.

Lemma encodeBytes_shapes (bytes out : Buffer) :
  encodeBytes bytes = Ok out ->
  (exists L, 0 <= L <= 0x20 /\ out = u8 (0x70 + L) :: bytes) \/
  (exists L, out = x91 :: u8 L :: bytes) \/
  (exists L, out = x92 :: be_bytes 2 L ++ bytes) \/
  (exists L, out = x93 :: be_bytes 4 L ++ bytes).
Proof.
  rewrite encodeBytes_cases. cbv zeta.
  pose proof (Buffer_length_nonneg bytes) as Hnn.
  destruct (Z.leb_spec (Buffer_length bytes) 0x20).
  { intros [= <-]. left. eexists. split; [|reflexivity]. lia. }
  destruct (Z.leb_spec (Buffer_length bytes) 0xff).
  { intros [= <-]. right. left. now eexists. }
  destruct (Z.leb_spec (Buffer_length bytes) 0xffff).
  { intros [= <-]. right. right. left. now eexists. }
  destruct (Z.leb_spec (Buffer_length bytes) 0xffffffff); [|discriminate].
  intros [= <-]. right. right. right. now eexists.
Qed.

Lemma small_bytes_marker (L : Z) (b : byte) :
  0 <= L <= 0x20 -> u8 (0x70 + L) = b -> b <> x91 /\ b <> x92 /\ b <> x93.
Proof.
  intros HL <-.
  assert (H91 : byte_val x91 = 0x91) by reflexivity.
  assert (H92 : byte_val x92 = 0x92) by reflexivity.
  assert (H93 : byte_val x93 = 0x93) by reflexivity.
  repeat split; intros E; apply (f_equal byte_val) in E;
    rewrite byte_val_u8_small in E by lia; lia.
Qed.

(** X8.  The byte-string encoding loses nothing: two buffers with the same
    encoding are the same buffer. *)
Theorem encodeBytes_injective (bytes1 bytes2 out : Buffer) :
  encodeBytes bytes1 = Ok out -> encodeBytes bytes2 = Ok out ->
  bytes1 = bytes2.
Proof.
  intros E1 E2.
  apply encodeBytes_shapes in E1, E2.
  destruct E1 as [(L1 & HL1 & E1)|[(L1 & E1)|[(L1 & E1)|(L1 & E1)]]];
    destruct E2 as [(L2 & HL2 & E2)|[(L2 & E2)|[(L2 & E2)|(L2 & E2)]]];
    rewrite E1 in E2; clear E1;
    try discriminate E2;
    try (injection E2 as Em _;
         first [ apply small_bytes_marker in Em
               | symmetry in Em; apply small_bytes_marker in Em ];
         [ destruct Em as (? & ? & ?); congruence | exact HL1 || exact HL2 ]).
  all: injection E2; intros; congruence.
Qed.


Lemma encodeBytes_injective_witness : [x01; x02] = [x01; x02].
Proof.
  apply (encodeBytes_injective [x01; x02] [x01; x02] [x72; x01; x02]);
    reflexivity.
Defined.

(** X9.  Whole numbers from 0 to [2^53 - 1] keep their identity: two of
    them with the same encoding are equal. *)
Theorem encodeNumber_injective (num1 num2 : JSNumber) (n1 n2 : Z) :
  integer_value num1 = Some n1 -> 0 <= n1 <= 2 ^ 53 - 1 ->
  integer_value num2 = Some n2 -> 0 <= n2 <= 2 ^ 53 - 1 ->
  encodeNumber num1 = encodeNumber num2 ->
  n1 = n2.
Proof.
  intros Hv1 Hr1 Hv2 Hr2.
  rewrite (encodeNumber_integer num1 n1), (encodeNumber_integer num2 n2)
    by (assumption || lia).
  assert (H30 : byte_val x30 = 0x30) by reflexivity.
  assert (H32 : byte_val x32 = 0x32) by reflexivity.
  assert (H33 : byte_val x33 = 0x33) by reflexivity.
  assert (Hle : forall (w : nat) (a b : Z),
             0 <= a < 256 ^ Z.of_nat w -> 0 <= b < 256 ^ Z.of_nat w ->
             le_bytes w a = le_bytes w b -> a = b).
  { intros w a b Ha Hb E. apply (f_equal le_value) in E.
    now rewrite !le_value_le_bytes_small in E by assumption. }
  destruct (Z.leb_spec n1 0x27); [|destruct (Z.leb_spec n1 0xff);
    [|destruct (Z.leb_spec n1 0xffffffff);
      [|destruct (Z.leb_spec n1 (2 ^ 53 - 1)); [|lia]]]];
  (destruct (Z.leb_spec n2 0x27); [|destruct (Z.leb_spec n2 0xff);
    [|destruct (Z.leb_spec n2 0xffffffff);
      [|destruct (Z.leb_spec n2 (2 ^ 53 - 1)); [|lia]]]]);
  intros E; try discriminate E;
  try (apply (f_equal (fun r => match r with
                                | Ok l => length l
                                | Throw _ => 0%nat
                                end)) in E;
       cbn [length] in E; rewrite ?length_le_bytes in E; discriminate E).
  - injection E as E. apply (f_equal byte_val) in E.
    rewrite !byte_val_u8_small in E by lia. lia.
  - injection E as E. apply (f_equal byte_val) in E.
    rewrite !byte_val_u8_small in E by lia. lia.
  - apply (Hle 4%nat); [cbn; lia..|]. congruence.
  - apply (Hle 8%nat); [cbn; lia..|]. congruence.
Qed.

Lemma encodeNumber_injective_witness : 300 = 300.
Proof.
  apply (encodeNumber_injective (Number_of_Z 300) (Number_of_Z 300) 300 300);
    first [reflexivity | lia].
Defined.

Lemma push_items_prefix (arr : list SerializableValue) :
  forall acc parts,
    push_items encode arr acc = Ok parts -> exists more, parts = acc ++ more.
Proof.
  induction arr as [|item arr IH]; intros acc parts; cbn [push_items].
  - intros [= <-]. exists []. now rewrite app_nil_r.
  - destruct (encode item) as [part|e]; cbn [bind_result]; [|discriminate].
    intros H. apply IH in H as (more & ->). exists (part :: more).
    now rewrite <- app_assoc.
Qed.

Lemma push_entries_prefix (entries : list (string * SerializableValue)) :
  forall acc parts,
    push_entries encode entries acc = Ok parts ->
    exists more, parts = acc ++ more.
Proof.
  induction entries as [|[key value] entries IH]; intros acc parts;
    cbn [push_entries].
  - intros [= <-]. exists []. now rewrite app_nil_r.
  - destruct (encodeString key) as [kpart|e]; cbn [bind_result];
      [|discriminate].
    destruct (encode value) as [vpart|e]; cbn [bind_result]; [|discriminate].
    intros H. apply IH in H as (more & ->). exists (kpart :: vpart :: more).
    now rewrite <- !app_assoc.
Qed.

(** X10.  The first byte of an encoding tells the kind of the value encoded:
    null or undefined, boolean, number, string, byte string, array or
    mapping.  No encoding is empty. *)
Theorem first_byte_determines_kind (obj : SerializableValue) (out : Buffer) :
  encode obj = Ok out ->
  exists marker rest,
    out = marker :: rest /\ kind_of_first_byte marker = Some (kind_of obj).
Proof.
  destruct obj as [| |b|num|str|bytes|arr|entries]; cbn [encode kind_of].
  - intros [= <-]. now eexists _, _.
  - intros [= <-]. now eexists _, _.
  - intros [= <-]. destruct b; now eexists _, _.
  - destruct (integer_value num) as [n|] eqn:Hv.
    + destruct (Z.ltb_spec n 0) as [Hneg|Hpos].
      * rewrite encodeNumber_float by (right; now exists n).
        intros [= <-]. now eexists _, _.
      * rewrite (encodeNumber_integer num n) by assumption.
        destruct (Z.leb_spec n 0x27).
        { intros [= <-]. eexists _, _. split; [reflexivity|].
          apply (kind_of_first_byte_u8 _ KNumber). lia. }
        destruct (Z.leb_spec n 0xff); [intros [= <-]; now eexists _, _|].
        destruct (Z.leb_spec n 0xffffffff);
          [intros [= <-]; now eexists _, _|].
        destruct (Z.leb_spec n (2 ^ 53 - 1)); [|discriminate].
        intros [= <-]. now eexists _, _.
    + rewrite encodeNumber_float by now left.
      intros [= <-]. now eexists _, _.
  - rewrite encodeString_cases. cbv zeta.
    pose proof (Buffer_length_nonneg (utf8_encode str)).
    destruct (Z.leb_spec (Buffer_length (utf8_encode str)) 0x20).
    { intros [= <-]. eexists _, _. split; [reflexivity|].
      apply (kind_of_first_byte_u8
               (0x40 + Buffer_length (utf8_encode str)) KString). lia. }
    destruct (Z.leb_spec (Buffer_length (utf8_encode str)) 0xff);
      [intros [= <-]; now eexists _, _|].
    destruct (Z.leb_spec (Buffer_length (utf8_encode str)) 0xffff);
      [intros [= <-]; now eexists _, _|].
    destruct (Z.leb_spec (Buffer_length (utf8_encode str)) 0xffffffff);
      [|discriminate].
    intros [= <-]. now eexists _, _.
  - rewrite encodeBytes_cases. cbv zeta.
    pose proof (Buffer_length_nonneg bytes).
    destruct (Z.leb_spec (Buffer_length bytes) 0x20).
    { intros [= <-]. eexists _, _. split; [reflexivity|].
      apply (kind_of_first_byte_u8 (0x70 + Buffer_length bytes) KBuffer).
      lia. }
    destruct (Z.leb_spec (Buffer_length bytes) 0xff);
      [intros [= <-]; now eexists _, _|].
    destruct (Z.leb_spec (Buffer_length bytes) 0xffff);
      [intros [= <-]; now eexists _, _|].
    destruct (Z.leb_spec (Buffer_length bytes) 0xffffffff); [|discriminate].
    intros [= <-]. now eexists _, _.
  - unfold encodeArray_body, OPACK2_SMALL_ARRAY_MAX.
    destruct (Z.leb_spec (Z.of_nat (length arr)) 15).
    + destruct (push_items encode arr _) as [parts|e] eqn:Hp; [|discriminate].
      apply push_items_prefix in Hp as (more & ->).
      intros [= <-]. eexists _, _. split; [reflexivity|].
      apply (kind_of_first_byte_u8 (0xd0 + Z.of_nat (length arr)) KArray).
      lia.
    + destruct (push_items encode arr _) as [parts|e] eqn:Hp; [|discriminate].
      apply push_items_prefix in Hp as (more & ->).
      intros [= <-]. now eexists _, _.
  - unfold encodeDict_body, OPACK2_SMALL_DICT_MAX.
    destruct (Z.ltb_spec (Z.of_nat (length entries)) 15).
    + destruct (push_entries encode entries _) as [parts|e] eqn:Hp;
        [|discriminate].
      apply push_entries_prefix in Hp as (more & ->).
      intros [= <-]. eexists _, _. split; [reflexivity|].
      apply (kind_of_first_byte_u8 (0xe0 + Z.of_nat (length entries)) KObject).
      lia.
    + destruct (push_entries encode entries _) as [parts|e] eqn:Hp;
        [|discriminate].
      apply push_entries_prefix in Hp as (more & ->).
      intros [= <-]. now eexists _, _.
Qed.

Lemma first_byte_determines_kind_witness :
  exists marker rest,
    [xd2; x03; x01] = marker :: rest /\
    kind_of_first_byte marker = Some (kind_of (VArray [VNull; VBoolean true])).
Proof.
  apply (first_byte_determines_kind (VArray [VNull; VBoolean true])
           [xd2; x03; x01]).
  reflexivity.
Defined.


Lemma push_items_ok_inv (arr : list SerializableValue) :
  forall acc parts,
    push_items encode arr acc = Ok parts ->
    exists more, parts = acc ++ more /\ Forall2 encodes arr more.
Proof.
  induction arr as [|item arr IH]; intros acc parts; cbn [push_items].
  - intros [= <-]. exists []. split; [now rewrite app_nil_r|constructor].
  - destruct (encode item) as [part|e] eqn:Hitem; cbn [bind_result];
      [|discriminate].
    intros H. apply IH in H as (more & -> & Hmore).
    exists (part :: more). split; [now rewrite <- app_assoc|].
    now constructor.
Qed.

Lemma push_items_first_failure (pre post : list SerializableValue)
    (bad : SerializableValue) (parts : list Buffer) (e : Error) :
  Forall2 encodes pre parts -> encode bad = Throw e ->
  forall acc, push_items encode (pre ++ bad :: post) acc = Throw e.
Proof.
  intros Hpre Hbad.
  induction Hpre as [|item part pre parts Hitem _ IH]; intros acc;
    cbn [app push_items].
  - now rewrite Hbad.
  - rewrite Hitem. cbn [bind_result]. apply IH.
Qed.

(** X11.  An array encodes exactly when each of its elements does; when some
    element does not, encoding the array raises the error of the first such
    element. *)
Theorem encodeArray_fails_with_first_element :
  (forall (arr : list SerializableValue) (out : Buffer),
     encode (VArray arr) = Ok out ->
     exists parts, Forall2 encodes arr parts) /\
  (forall (pre post : list SerializableValue) (bad : SerializableValue)
          (parts : list Buffer) (e : Error),
     Forall2 encodes pre parts ->
     encode bad = Throw e ->
     encode (VArray (pre ++ bad :: post)) = Throw e).
Proof.
  split.
  - intros arr out. cbn [encode]. unfold encodeArray_body.
    destruct (Z.of_nat (length arr) <=? OPACK2_SMALL_ARRAY_MAX);
      destruct (push_items encode arr _) as [parts|e] eqn:Hp;
      try discriminate;
      apply push_items_ok_inv in Hp as (more & _ & Hmore);
      intros _; now exists more.
  - intros pre post bad parts e Hpre Hbad. cbn [encode].
    unfold encodeArray_body.
    destruct (Z.of_nat (length (pre ++ bad :: post)) <=? OPACK2_SMALL_ARRAY_MAX);
      now rewrite (push_items_first_failure pre post bad parts e Hpre Hbad).
Qed.

Lemma encodeArray_fails_with_first_element_witness :
  (exists parts, Forall2 encodes [VNull; VBoolean false] parts) /\
  encode (VArray ([VNull] ++ VNumber (Number_of_Z (2 ^ 53)) ::
                  [VNumber (Number_of_Z (2 ^ 54))])) =
  Throw (AppleTVError (NumberTooLarge (Number_of_Z (2 ^ 53)))).
Proof.
  split.
  - apply (proj1 encodeArray_fails_with_first_element
             [VNull; VBoolean false] [xd2; x03; x02]).
    reflexivity.
  - apply (proj2 encodeArray_fails_with_first_element
             [VNull] [VNumber (Number_of_Z (2 ^ 54))]
             (VNumber (Number_of_Z (2 ^ 53))) [[x03]]).
    + repeat constructor.
    + vm_compute. reflexivity.
Defined.

End Opack2More.

(** ** More on the SRP client *)

Module SRPMore.
Import SRP SRPFacts SRPInvariant.

(** *** Identity *)

Lemma trimStart_chars_idempotent (cs : list ascii) :
  trimStart_chars (trimStart_chars cs) = trimStart_chars cs.
Proof.
  induction cs as [|c cs IH]; [reflexivity|].
  cbn [trimStart_chars]. destruct (is_white_space c) eqn:Hc; [exact IH|].
  cbn [trimStart_chars]. now rewrite Hc.
Qed.

Lemma trimStart_chars_snoc (cs : list ascii) (c : ascii) :
  is_white_space c = false ->
  trimStart_chars (cs ++ [c]) = trimStart_chars cs ++ [c].
Proof.
  intros Hc. induction cs as [|a cs IH]; cbn [app trimStart_chars].
  - now rewrite Hc.
  - destruct (is_white_space a); [exact IH|reflexivity].
Qed.

Lemma trimStart_chars_head (cs : list ascii) :
  trimStart_chars cs = [] \/
  exists c rest, trimStart_chars cs = c :: rest /\ is_white_space c = false.
Proof.
  induction cs as [|a cs IH]; [now left|].
  cbn [trimStart_chars]. destruct (is_white_space a) eqn:Ha; [exact IH|].
  right. now exists a, cs.
Qed.

(** [trim] leaves a trimmed string as it is. *)
Lemma trim_idempotent (str : string) : trim (trim str) = trim str.
Proof.
  unfold trim. rewrite list_ascii_of_string_of_list_ascii. f_equal.
  set (cs := list_ascii_of_string str).
  destruct (trimStart_chars_head cs) as [E|(c & rest & E & Hc)].
  - rewrite E. reflexivity.
  - rewrite E. cbn [rev].
    rewrite trimStart_chars_snoc by assumption.
    rewrite rev_app_distr. cbn [rev app trimStart_chars]. rewrite Hc.
    cbn [rev]. rewrite rev_involutive.
    rewrite trimStart_chars_snoc by assumption.
    rewrite trimStart_chars_idempotent, rev_app_distr. reflexivity.
Qed.

Lemma string_is_empty_true (s : string) :
  string_is_empty s = true -> s = ""%string.
Proof. destruct s; [reflexivity|discriminate]. Qed.

(** X13.  [setIdentity] on a live client either fails and leaves the client
    as it was, or stores the user name trimmed and the password as given: the
    stored user name is then not empty and has no white space at either end,
    and the stored password is not empty.  No other field changes. *)
Theorem setIdentity_stores_trimmed_identity
    (this : SRPClient) (user pass : string) :
  disposed this = false ->
  (exists e, setIdentity user pass this = (Throw e, this) /\
             (trim user = ""%string \/ pass = ""%string)) \/
  (setIdentity user pass this = (Ok tt, with_identity (trim user) pass this) /\
   trim user <> ""%string /\ trim (trim user) = trim user /\
   pass <> ""%string).
Proof.
  intros Hd. unfold setIdentity, throwIfDisposed, bind, read, throw, ret, update.
  rewrite Hd.
  destruct (string_is_empty (trim user)) eqn:Hu.
  { left. eexists. split; [reflexivity|]. left.
    now apply string_is_empty_true. }
  destruct (string_is_empty pass) eqn:Hp.
  { left. eexists. split; [reflexivity|]. right.
    now apply string_is_empty_true. }
  right. split; [reflexivity|]. split; [|split].
  - intros E. rewrite E in Hu. discriminate.
  - apply trim_idempotent.
  - intros E. rewrite E in Hp. discriminate.
Qed.

Lemma setIdentity_stores_trimmed_identity_witness :
  setIdentity "  Pair-Setup " " 12 " example_client =
    (Ok tt, with_identity "Pair-Setup" " 12 " example_client).
Proof.
  destruct (setIdentity_stores_trimmed_identity example_client
              "  Pair-Setup " " 12 " eq_refl) as [(e & E & _)|(E & _)].
  - discriminate E.
  - exact E.
Defined.


(** *** Key generation *)

Lemma valid_private_key_false (randomBits : Buffer) :
  valid_private_key randomBits = false ->
  let a := bufferToBigInt randomBits in
  (a >=? N) = true \/
  ((a >=? N) = false /\ (a =? ZERO) = true) \/
  ((a >=? N) = false /\ (a =? ZERO) = false /\
   ((modPow g a N <=? ONE) || (modPow g a N >=? N_MINUS_ONE)) = true).
Proof.
  unfold valid_private_key. cbv zeta.
  destruct (bufferToBigInt randomBits >=? N); [now left|].
  destruct (bufferToBigInt randomBits =? ZERO); [right; now left|].
  destruct ((modPow g (bufferToBigInt randomBits) N <=? ONE) ||
            (modPow g (bufferToBigInt randomBits) N >=? N_MINUS_ONE));
    [right; now right|discriminate].
Qed.

(** One turn of the loop: an acceptable draw ends it, any other draw leads to
    the next turn. *)
Lemma generateClientKeys_loop_step (randomBytes : RandomSource)
    (remaining attempts : nat) (this : SRPClient) :
  let a := bufferToBigInt (randomBytes attempts) in
  generateClientKeys_loop randomBytes (S remaining) attempts this =
  if valid_private_key (randomBytes attempts) then
    (Ok tt, with_A (modPow g a N) (with_a a this))
  else
    generateClientKeys_loop randomBytes remaining (S attempts)
      (if (a >=? N) || (a =? ZERO) then with_a a this
       else with_A (modPow g a N) (with_a a this)).
Proof.
  intros a. cbn [generateClientKeys_loop]. unfold bind, update, read, ret.
  cbn [_a with_a]. fold a.
  destruct (valid_private_key (randomBytes attempts)) eqn:Hv.
  - destruct (valid_private_key_spec _ a eq_refl Hv) as (H1 & H2 & H3 & _).
    rewrite H1, H2. cbn [_A with_A]. now rewrite H3.
  - apply valid_private_key_false in Hv. fold a in Hv.
    destruct Hv as [H1|[[H1 H2]|(H1 & H2 & H3)]].
    + now rewrite H1.
    + now rewrite H1, H2.
    + rewrite H1, H2. cbn [_A with_A orb]. now rewrite H3.
Qed.

Lemma generateClientKeys_loop_first_valid (randomBytes : RandomSource)
    (this : SRPClient) (i : nat) :
  valid_private_key (randomBytes i) = true ->
  let a := bufferToBigInt (randomBytes i) in
  forall remaining attempts st,
    (attempts <= i < attempts + remaining)%nat ->
    (forall j, (attempts <= j < i)%nat ->
               valid_private_key (randomBytes j) = false) ->
    with_A (modPow g a N) (with_a a st) =
      with_A (modPow g a N) (with_a a this) ->
    generateClientKeys_loop randomBytes remaining attempts st =
    (Ok tt, with_A (modPow g a N) (with_a a this)).
Proof.
  intros Hv a.
  induction remaining as [|remaining IH]; intros attempts st Hrange Hbefore Hst;
    [lia|].
  rewrite generateClientKeys_loop_step.
  destruct (Nat.eq_dec attempts i) as [->|Hne].
  - fold a. rewrite Hv, Hst. reflexivity.
  - rewrite (Hbefore attempts) by lia.
    apply IH; [lia|intros j Hj; apply Hbefore; lia|].
    rewrite <- Hst.
    destruct ((_ >=? N) || (_ =? ZERO)); destruct st; reflexivity.
Qed.

Lemma generateClientKeys_loop_exhausted (randomBytes : RandomSource) :
  (forall i, (i < 100)%nat -> valid_private_key (randomBytes i) = false) ->
  forall remaining attempts st,
    (attempts + remaining <= 100)%nat ->
    fst (generateClientKeys_loop randomBytes remaining attempts st) =
    Throw (SRPError (KeyGenerationFailed 100)).
Proof.
  intros Hnone.
  induction remaining as [|remaining IH]; intros attempts st Hrange;
    [reflexivity|].
  rewrite generateClientKeys_loop_step, Hnone by lia.
  apply IH. lia.
Qed.

Lemma generateClientKeys_with_identity (randomBytes : RandomSource)
    (this : SRPClient) :
  password this <> ""%string ->
  generateClientKeys randomBytes this =
  generateClientKeys_loop randomBytes 100 0 this.
Proof.
  intros Hp. unfold generateClientKeys, validateIdentitySet, bind, read,
    throw, ret.
  rewrite (string_is_empty_false _ Hp). reflexivity.
Qed.

(** X14.  The keys come from the first acceptable draw: when draw [i] is the
    first acceptable one among the first 100, [generateClientKeys] returns
    with [a] the integer of that draw and [A = g^a mod N], whatever the later
    draws are; when none of the first 100 draws is acceptable, it raises the
    key generation error. *)
Theorem generateClientKeys_uses_first_valid_draw
    (randomBytes : RandomSource) (this : SRPClient) :
  password this <> ""%string ->
  (forall i,
     (i < 100)%nat ->
     valid_private_key (randomBytes i) = true ->
     (forall j, (j < i)%nat -> valid_private_key (randomBytes j) = false) ->
     let a := bufferToBigInt (randomBytes i) in
     generateClientKeys randomBytes this =
     (Ok tt, with_A (modPow g a N) (with_a a this))) /\
  ((forall i, (i < 100)%nat -> valid_private_key (randomBytes i) = false) ->
   fst (generateClientKeys randomBytes this) =
   Throw (SRPError (KeyGenerationFailed 100))).
Proof.
  intros Hp. rewrite generateClientKeys_with_identity by assumption. split.
  - intros i Hi Hv Hfirst a.
    apply (generateClientKeys_loop_first_valid randomBytes this i Hv);
      [lia|intros j Hj; apply Hfirst; lia|reflexivity].
  - intros Hnone. apply generateClientKeys_loop_exhausted; [exact Hnone|lia].
Qed.

Lemma generateClientKeys_uses_first_valid_draw_witness :
  generateClientKeys
    (fun i => match i with
              | O => repeat x00 32
              | _ => repeat x00 31 ++ [x02]
              end) example_client =
  (Ok tt, with_A (modPow g 2 N) (with_a 2 example_client)).
Proof.
  apply (proj1 (generateClientKeys_uses_first_valid_draw
                  (fun i => match i with
                            | O => repeat x00 32
                            | _ => repeat x00 31 ++ [x02]
                            end) example_client ltac:(discriminate)) 1%nat).
  - lia.
  - vm_compute. reflexivity.
  - intros j Hj. assert (j = 0%nat) as -> by lia. vm_compute. reflexivity.
Defined.

Lemma be_value_bound (buf : Buffer) :
  be_value buf < 256 ^ Buffer_length buf.
Proof.
  induction buf as [|b buf IH] using rev_ind; [cbn; lia|].
  rewrite be_value_app, Buffer_length_app.
  change (Buffer_length [b]) with 1.
  rewrite Z.pow_add_r by (pose proof (Buffer_length_nonneg buf); lia).
  pose proof (byte_val_range b). change (256 ^ 1) with 256. lia.
Qed.

(** X15.  A draw of 32 random bytes is always below [N]: the loop never
    rejects a draw for [a >= N]. *)
Theorem private_key_draw_below_N (randomBits : Buffer) :
  Buffer_length randomBits = SRP_PRIVATE_KEY_BITS / 8 ->
  (bufferToBigInt randomBits >=? N) = false.
Proof.
  intros Hlen. pose proof (be_value_bound randomBits) as Hb.
  rewrite Hlen in Hb.
  assert (HN : 256 ^ (SRP_PRIVATE_KEY_BITS / 8) < N)
    by (vm_compute; reflexivity).
  unfold bufferToBigInt. lia.
Qed.

Lemma private_key_draw_below_N_witness :
  (bufferToBigInt (repeat xff 32) >=? N) = false.
Proof.
  apply (private_key_draw_below_N (repeat xff 32)). vm_compute. reflexivity.
Defined.


(** *** The two setters *)

Lemma generateClientKeysIfReady_frozen (randomBytes : RandomSource)
    (this : SRPClient) :
  keysGenerated this = true ->
  generateClientKeysIfReady randomBytes this = (Ok tt, this).
Proof.
  intros Hkg. unfold generateClientKeysIfReady, bind, read, ret.
  rewrite Hkg. now rewrite !andb_false_r.
Qed.

Lemma generateClientKeysIfReady_not_ready (randomBytes : RandomSource)
    (this : SRPClient) :
  truthy_buffer (_salt this) && truthy_bigint (_B this) = false ->
  generateClientKeysIfReady randomBytes this = (Ok tt, this).
Proof.
  intros H. unfold generateClientKeysIfReady, bind, read, ret. now rewrite H.
Qed.

Lemma Buffer_length_zero (buf : Buffer) :
  (Buffer_length buf =? 0) = match buf with [] => true | _ => false end.
Proof.
  destruct buf; [reflexivity|]. unfold Buffer_length. cbn [length].
  apply Z.eqb_neq. lia.
Qed.

(** X16.  The order of the two assignments does not matter: on a live client
    that holds neither a salt nor a server key, assigning a non-empty salt
    and then a valid server key gives the same outcome and the same state as
    assigning them the other way round, the keys being generated by the
    second assignment in both cases. *)
Theorem setter_order_is_irrelevant
    (first second : RandomSource) (this : SRPClient) (value salt : Buffer) :
  disposed this = false ->
  _salt this = None ->
  _B this = None ->
  salt <> [] ->
  Buffer_length value = SRP_KEY_LENGTH_BYTES ->
  1 < bufferToBigInt value < N - 1 ->
  bind (set_salt first salt) (fun _ => set_serverPublicKey second value) this =
  bind (set_serverPublicKey first value) (fun _ => set_salt second salt) this.
Proof.
  intros Hd Hs HB Hsalt Hlen Hrange.
  pose proof N_bounds as [HN _].
  set (B := bufferToBigInt value) in *.
  assert (E1 : set_salt first salt this = (Ok tt, with_salt (Some salt) this)).
  { unfold set_salt, throwIfDisposed, bind, read, throw, ret, update.
    rewrite Hd, Buffer_length_zero. destruct salt; [congruence|].
    apply generateClientKeysIfReady_not_ready.
    cbn [_salt _B with_salt]. rewrite HB. reflexivity. }
  assert (E2 : set_serverPublicKey first value this =
               (Ok tt, with_B (Some B) this)).
  { unfold set_serverPublicKey, throwIfDisposed, bind, read, throw, ret, update.
    rewrite Hd, Hlen, Z.eqb_refl. cbn [negb]. fold B.
    unfold N_MINUS_ONE, ONE, ZERO.
    destruct (Z.leb_spec B 1); [lia|].
    destruct (Z.geb_spec B (N - 1)); [lia|]. cbn [orb].
    rewrite Z.rem_small by lia.
    destruct (Z.eqb_spec B 0); [lia|].
    apply generateClientKeysIfReady_not_ready.
    cbn [_salt _B with_B]. rewrite Hs. reflexivity. }
  assert (E3 : set_serverPublicKey second value (with_salt (Some salt) this) =
               generateClientKeysIfReady second
                 (with_B (Some B) (with_salt (Some salt) this))).
  { unfold set_serverPublicKey, throwIfDisposed, bind, read, throw, ret, update.
    change (disposed (with_salt (Some salt) this)) with (disposed this).
    rewrite Hd, Hlen, Z.eqb_refl. cbn [negb]. fold B.
    unfold N_MINUS_ONE, ONE, ZERO.
    destruct (Z.leb_spec B 1); [lia|].
    destruct (Z.geb_spec B (N - 1)); [lia|]. cbn [orb].
    rewrite Z.rem_small by lia.
    destruct (Z.eqb_spec B 0); [lia|]. reflexivity. }
  assert (E4 : set_salt second salt (with_B (Some B) this) =
               generateClientKeysIfReady second
                 (with_salt (Some salt) (with_B (Some B) this))).
  { unfold set_salt, throwIfDisposed, bind, read, throw, ret, update.
    change (disposed (with_B (Some B) this)) with (disposed this).
    rewrite Hd, Buffer_length_zero. destruct salt; [congruence|]. reflexivity. }
  unfold bind. rewrite E1, E2. cbv beta iota. rewrite E3, E4.
  reflexivity.
Qed.

Lemma setter_order_is_irrelevant_witness :
  bind (set_salt example_random [x05])
    (fun _ => set_serverPublicKey example_random (be_bytes 384 7))
    example_client =
  bind (set_serverPublicKey example_random (be_bytes 384 7))
    (fun _ => set_salt example_random [x05]) example_client.
Proof.
  apply (setter_order_is_irrelevant example_random example_random
           example_client (be_bytes 384 7) [x05]).
  - reflexivity.
  - reflexivity.
  - reflexivity.
  - discriminate.
  - vm_compute. reflexivity.
  - vm_compute. split; reflexivity.
Defined.

(** X17.  Once the keys are generated they are frozen: later assignments of
    [salt] and [serverPublicKey], accepted or rejected, draw no random bytes
    and leave [a], [A] and the flag as they are. *)
Theorem keys_are_generated_once
    (randomBytes : RandomSource) (this : SRPClient) (value : Buffer) :
  keysGenerated this = true ->
  let after_salt := snd (set_salt randomBytes value this) in
  let after_key := snd (set_serverPublicKey randomBytes value this) in
  (_a after_salt = _a this /\ _A after_salt = _A this /\
   keysGenerated after_salt = true) /\
  (_a after_key = _a this /\ _A after_key = _A this /\
   keysGenerated after_key = true) /\
  (forall other : RandomSource,
     set_salt other value this = set_salt randomBytes value this /\
     set_serverPublicKey other value this =
       set_serverPublicKey randomBytes value this).
Proof.
  intros Hkg.
  assert (Hs : forall r, set_salt r value this =
                 if disposed this then (Throw (SRPError ClientDisposed), this)
                 else if Buffer_length value =? 0
                      then (Throw (SRPError SaltCannotBeEmpty), this)
                      else (Ok tt, with_salt (Some value) this)).
  { intros r. unfold set_salt, throwIfDisposed, bind, read, throw, ret, update.
    destruct (disposed this); [reflexivity|].
    destruct (Buffer_length value =? 0); [reflexivity|].
    now apply generateClientKeysIfReady_frozen. }
  assert (Hk : forall r,
               set_serverPublicKey r value this =
                 if disposed this then (Throw (SRPError ClientDisposed), this)
                 else if negb (Buffer_length value =? SRP_KEY_LENGTH_BYTES)
                      then (Throw (SRPError
                              (ServerPublicKeyWrongSize SRP_KEY_LENGTH_BYTES
                                 (Buffer_length value))), this)
                      else if ((bufferToBigInt value <=? ONE) ||
                               (bufferToBigInt value >=? N_MINUS_ONE)) ||
                              (Z.rem (bufferToBigInt value) N =? ZERO)
                           then (Throw (SRPError
                                   (if (bufferToBigInt value <=? ONE) ||
                                       (bufferToBigInt value >=? N_MINUS_ONE)
                                    then ServerPublicKeyOutOfRange
                                    else ServerPublicKeyDivisibleByN)),
                                 with_B (Some (bufferToBigInt value)) this)
                           else (Ok tt,
                                 with_B (Some (bufferToBigInt value)) this)).
  { intros r.
    unfold set_serverPublicKey, throwIfDisposed, bind, read, throw, ret, update.
    destruct (disposed this); [reflexivity|].
    destruct (negb (Buffer_length value =? SRP_KEY_LENGTH_BYTES));
      [reflexivity|].
    destruct ((bufferToBigInt value <=? ONE) ||
              (bufferToBigInt value >=? N_MINUS_ONE)); [reflexivity|].
    cbn [orb].
    destruct (Z.rem (bufferToBigInt value) N =? ZERO); [reflexivity|].
    now apply generateClientKeysIfReady_frozen. }
  cbv zeta. split; [|split].
  - rewrite Hs. destruct (disposed this); [now repeat split|].
    destruct (Buffer_length value =? 0); now repeat split.
  - rewrite Hk.
    repeat match goal with
           | |- context [if ?c then _ else _] => destruct c
           end; now repeat split.
  - intros other. split.
    + now rewrite !Hs.
    + now rewrite !Hk.
Qed.

Lemma keys_are_generated_once_witness :
  _a (snd (set_salt example_random [x09] example_ready_client)) = 1 /\
  _A (snd (set_salt example_random [x09] example_ready_client)) = 5.
Proof.
  destruct (keys_are_generated_once example_random example_ready_client
              [x09] eq_refl) as ((Ha & HA & _) & _).
  split; [exact Ha|exact HA].
Defined.


(** *** What the operations leave untouched *)

Lemma generateClientKeys_loop_outcome (randomBytes : RandomSource)
    (remaining attempts : nat) (this : SRPClient) :
  let outcome := generateClientKeys_loop randomBytes remaining attempts this in
  fst outcome = Throw (SRPError (KeyGenerationFailed 100)) \/
  (fst outcome = Ok tt /\
   1 < _A (snd outcome) < N - 1 /\ 0 < _a (snd outcome) < N /\
   _A (snd outcome) = modPow g (_a (snd outcome)) N).
Proof.
  revert attempts this.
  induction remaining as [|remaining IH]; intros attempts this; cbv zeta.
  - now left.
  - rewrite generateClientKeys_loop_step.
    destruct (valid_private_key (randomBytes attempts)) eqn:Hv; [|apply IH].
    right.
    destruct (valid_private_key_spec _ _ eq_refl Hv) as (_ & _ & _ & Ha & HA).
    cbn [fst snd _A _a with_A with_a]. now repeat split.
Qed.

(** The conditional key generation changes [_a], [_A] and [keysGenerated]
    only, and sets the flag only on keys that satisfy the invariant. *)
Lemma generateClientKeysIfReady_frame (randomBytes : RandomSource)
    (this : SRPClient) :
  keys_invariant this ->
  let this' := snd (generateClientKeysIfReady randomBytes this) in
  this' = with_keysGenerated (keysGenerated this')
            (with_A (_A this') (with_a (_a this') this)) /\
  keys_invariant this'.
Proof.
  intros Hinv. cbv zeta.
  unfold generateClientKeysIfReady, generateClientKeys, validateIdentitySet,
    bind, read, throw, ret, update.
  destruct (truthy_buffer (_salt this) && truthy_bigint (_B this) &&
            negb (keysGenerated this)) eqn:Hready.
  2:{ cbn [snd]. split; [destruct this; reflexivity|exact Hinv]. }
  apply andb_prop in Hready as [_ Hkg]. apply negb_true_iff in Hkg.
  destruct (string_is_empty (password this)).
  { cbn [snd]. split; [destruct this; reflexivity|exact Hinv]. }
  pose proof (generateClientKeys_loop_frame randomBytes
                (Z.to_nat MAX_KEY_GENERATION_ATTEMPTS) 0 this) as Hframe.
  pose proof (generateClientKeys_loop_outcome randomBytes
                (Z.to_nat MAX_KEY_GENERATION_ATTEMPTS) 0 this) as Hout.
  cbv zeta in Hframe, Hout.
  destruct (generateClientKeys_loop randomBytes
              (Z.to_nat MAX_KEY_GENERATION_ATTEMPTS) 0 this) as [[[]|e] st'].
  - cbn [fst snd] in *. destruct Hout as [Hout|(_ & HA & Ha & HAa)];
      [discriminate|].
    split; [rewrite Hframe at 1; reflexivity|].
    intros _. cbn [_A _a disposed with_keysGenerated]. now repeat split.
  - cbn [fst snd] in *. split.
    + rewrite Hframe at 1. rewrite Hframe. destruct this; cbn in *.
      now rewrite Hkg.
    + intros Hkg'. rewrite Hframe in Hkg'.
      cbn [keysGenerated with_A with_a] in Hkg'. congruence.
Qed.

Lemma keys_invariant_same_keys (this this' : SRPClient) :
  keys_invariant this ->
  keysGenerated this' = keysGenerated this ->
  _a this' = _a this -> _A this' = _A this ->
  disposed this' = disposed this ->
  keys_invariant this'.
Proof.
  unfold keys_invariant. intros Hinv -> -> -> ->. exact Hinv.
Qed.

Section Frames.

Variable hash : Buffer -> Buffer.

(** The computation of the shared secret assigns [_S] and [_K] only. *)
Lemma computeSharedSecret_frame (this : SRPClient) :
  let this' := snd (computeSharedSecret hash this) in
  this' = with_K (_K this') (with_S (_S this') this).
Proof.
  cbv zeta.
  unfold computeSharedSecret, validateIdentitySet, bind, read, throw, ret,
    lift, update.
  destruct (string_is_empty (password this)); [destruct this; reflexivity|].
  destruct (_salt this) as [salt|]; [|destruct this; reflexivity].
  destruct (_B this) as [B|] eqn:HB; [|destruct this; reflexivity].
  destruct (negb (truthy_bigint (Some B))); [destruct this; reflexivity|].
  destruct (_A this =? ZERO); [destruct this; reflexivity|].
  destruct (calculateU hash (_A this) B SRP_KEY_LENGTH_BYTES) as [u|e];
    [|destruct this; reflexivity].
  match goal with
  | |- context [lift (bigIntToBuffer ?S ?w)] => destruct (bigIntToBuffer S w)
  | |- context [bigIntToBuffer ?S ?w] => destruct (bigIntToBuffer S w)
  end; destruct this; reflexivity.
Qed.

Lemma lazy_shared_secret_frame (this : SRPClient) :
  let this' :=
    snd ((if negb (truthy_buffer (_K this)) then computeSharedSecret hash
          else ret tt) this) in
  this' = with_K (_K this') (with_S (_S this') this).
Proof.
  cbv zeta. destruct (negb (truthy_buffer (_K this))).
  - apply computeSharedSecret_frame.
  - destruct this; reflexivity.
Qed.

Lemma computeProof_state (this : SRPClient) :
  snd (computeProof hash this) = this \/
  snd (computeProof hash this) = snd (computeSharedSecret hash this).
Proof.
  unfold computeProof, throwIfDisposed, validateIdentitySet, bind, read, throw,
    ret, lift.
  destruct (disposed this); [now left|].
  destruct (string_is_empty (password this)); [now left|].
  destruct (negb (truthy_buffer (_K this))).
  - right. destruct (computeSharedSecret hash this) as [[[]|e] st];
      [|reflexivity].
    cbn [snd]. destruct (_salt st); [|reflexivity].
    destruct (_K st); [|reflexivity]. destruct (_B st); [|reflexivity].
    destruct (negb (truthy_bigint _)); reflexivity.
  - left. unfold ret. destruct (_salt this); [|reflexivity].
    destruct (_K this); [|reflexivity]. destruct (_B this); [|reflexivity].
    destruct (negb (truthy_bigint _)); reflexivity.
Qed.

Lemma get_sessionKey_state (this : SRPClient) :
  snd (get_sessionKey hash this) = this \/
  snd (get_sessionKey hash this) = snd (computeSharedSecret hash this).
Proof.
  unfold get_sessionKey, throwIfDisposed, validateIdentitySet, bind, read,
    throw, ret.
  destruct (disposed this); [now left|].
  destruct (string_is_empty (password this)); [now left|].
  destruct (negb (truthy_buffer (_K this))).
  - right. destruct (computeSharedSecret hash this) as [[[]|e] st];
      [|reflexivity].
    cbn [snd]. destruct (_K st); reflexivity.
  - left. destruct (_K this); reflexivity.
Qed.

(** X18.  The invariant of the keys holds on a new client and is kept by
    every public operation, whether it returns or raises. *)
Theorem keys_invariant_preserved :
  (forall this, constructor hash = Ok this -> keys_invariant this) /\
  (forall this : SRPClient,
     keys_invariant this ->
     (forall user pass, keys_invariant (snd (setIdentity user pass this))) /\
     (forall randomBytes value,
        keys_invariant (snd (set_salt randomBytes value this))) /\
     (forall randomBytes value,
        keys_invariant (snd (set_serverPublicKey randomBytes value this))) /\
     keys_invariant (snd (get_publicKey this)) /\
     keys_invariant (snd (computeProof hash this)) /\
     keys_invariant (snd (get_sessionKey hash this)) /\
     keys_invariant (snd (dispose this))).
Proof.
  split.
  - intros this. unfold constructor.
    destruct (calculateK hash N g SRP_KEY_LENGTH_BYTES); [|discriminate].
    intros [= <-]. intros Hkg. discriminate Hkg.
  - intros this Hinv.
    assert (Hsecret : keys_invariant (snd (computeSharedSecret hash this))).
    { rewrite computeSharedSecret_frame.
      apply (keys_invariant_same_keys this); [exact Hinv|reflexivity..]. }
    split; [|split; [|split; [|split; [|split; [|split]]]]].
    + intros user pass.
      unfold setIdentity, throwIfDisposed, bind, read, throw, ret, update.
      destruct (disposed this); [exact Hinv|].
      destruct (string_is_empty (trim user)); [exact Hinv|].
      destruct (string_is_empty pass); [exact Hinv|].
      apply (keys_invariant_same_keys this); [exact Hinv|reflexivity..].
    + intros randomBytes value.
      unfold set_salt, throwIfDisposed, bind, read, throw, ret, update.
      destruct (disposed this); [exact Hinv|].
      destruct (Buffer_length value =? 0); [exact Hinv|].
      apply generateClientKeysIfReady_frame.
      apply (keys_invariant_same_keys this); [exact Hinv|reflexivity..].
    + intros randomBytes value.
      unfold set_serverPublicKey, throwIfDisposed, bind, read, throw, ret,
        update.
      destruct (disposed this); [exact Hinv|].
      destruct (negb (Buffer_length value =? SRP_KEY_LENGTH_BYTES));
        [exact Hinv|].
      assert (HB : keys_invariant (with_B (Some (bufferToBigInt value)) this))
        by (apply (keys_invariant_same_keys this);
            [exact Hinv|reflexivity..]).
      destruct ((bufferToBigInt value <=? ONE) ||
                (bufferToBigInt value >=? N_MINUS_ONE)); [exact HB|].
      destruct (Z.rem (bufferToBigInt value) N =? ZERO); [exact HB|].
      now apply generateClientKeysIfReady_frame.
    + unfold get_publicKey, throwIfDisposed, bind, read, throw, ret, lift.
      destruct (disposed this); [exact Hinv|].
      destruct (_A this =? ZERO); exact Hinv.
    + destruct (computeProof_state this) as [-> | ->]; assumption.
    + destruct (get_sessionKey_state this) as [-> | ->]; assumption.
    + destruct (disposed this) eqn:Hd.
      * now rewrite dispose_disposed.
      * rewrite dispose_live by assumption. cbn [snd].
        intros Hkg.
        assert (Hkg' : keysGenerated this = true)
          by (destruct (_K this); exact Hkg).
        destruct (Hinv Hkg') as [HA _]. split.
        -- destruct (_K this); exact HA.
        -- intros Hlive. destruct (_K this); discriminate Hlive.
Qed.

End Frames.

(** X19.  On a live client that satisfies the invariant and has its keys,
    the [publicKey] getter returns 384 bytes, the big-endian encoding of an
    [A] in [(1, N - 1)], and changes nothing. *)
Theorem publicKey_is_a_valid_key (this : SRPClient) :
  keys_invariant this ->
  keysGenerated this = true ->
  disposed this = false ->
  exists buf,
    get_publicKey this = (Ok buf, this) /\
    Buffer_length buf = 384 /\
    bufferToBigInt buf = _A this /\
    1 < bufferToBigInt buf < N - 1.
Proof.
  intros Hinv Hkg Hd. destruct (Hinv Hkg) as [HA _].
  exists (be_bytes 384 (_A this)).
  unfold get_publicKey, throwIfDisposed, bind, read, throw, ret, lift.
  rewrite Hd. unfold ZERO.
  destruct (Z.eqb_spec (_A this) 0); [lia|].
  pose proof (bigIntToBuffer_below_N (_A this) ltac:(lia)) as Hbuf.
  rewrite Hbuf.
  destruct (bufferToBigInt_bigIntToBuffer (_A this) SRP_KEY_LENGTH_BYTES _
              ltac:(unfold SRP_KEY_LENGTH_BYTES; lia) Hbuf) as [Hval Hlen].
  split; [reflexivity|]. split; [exact Hlen|]. split; [exact Hval|].
  rewrite Hval. exact HA.
Qed.

Lemma publicKey_is_a_valid_key_witness :
  exists buf,
    get_publicKey example_ready_client = (Ok buf, example_ready_client) /\
    Buffer_length buf = 384 /\
    bufferToBigInt buf = _A example_ready_client /\
    1 < bufferToBigInt buf < N - 1.
Proof.
  apply (publicKey_is_a_valid_key example_ready_client).
  - intros _. split; [split; reflexivity|].
    intros _. split; [split; reflexivity|]. vm_compute. reflexivity.
  - reflexivity.
  - reflexivity.
Defined.


Lemma keys_invariant_preserved_witness :
  keys_invariant (snd (dispose example_ready_client)) /\
  keys_invariant
    (snd (set_salt example_random [x09] example_ready_client)).
Proof.
  assert (Hinv : keys_invariant example_ready_client).
  { intros _. split; [split; reflexivity|].
    intros _. split; [split; reflexivity|]. vm_compute. reflexivity. }
  destruct (proj2 (keys_invariant_preserved (fun _ => [x01]))
              example_ready_client Hinv)
    as (_ & Hsalt & _ & _ & _ & _ & Hdispose).
  split; [exact Hdispose|apply Hsalt].
Defined.

(** *** Errors and disposal *)

(** X20.  What is missing decides the error.  On a live client, with no
    password [computeProof] and the [sessionKey] getter raise the
    password-must-be-set error; with a password and no session key yet, they
    raise the salt-and-server-key error when the salt or the server key is
    missing, and the keys-not-generated error when both are there and [A] is
    still 0; the [publicKey] getter raises its own keys-not-generated error
    when [A] is 0.  None of these failures changes the client. *)
Theorem missing_prerequisites_are_reported
    (hash : Buffer -> Buffer) (this : SRPClient) :
  disposed this = false ->
  (password this = ""%string ->
   computeProof hash this = (Throw (SRPError PasswordMustBeSet), this) /\
   get_sessionKey hash this = (Throw (SRPError PasswordMustBeSet), this)) /\
  (password this <> ""%string -> _K this = None ->
   _salt this = None \/ truthy_bigint (_B this) = false ->
   computeProof hash this = (Throw (SRPError SaltAndServerKeyFirst), this) /\
   get_sessionKey hash this =
     (Throw (SRPError SaltAndServerKeyFirst), this)) /\
  (password this <> ""%string -> _K this = None ->
   _salt this <> None -> truthy_bigint (_B this) = true -> _A this = 0 ->
   computeProof hash this = (Throw (SRPError ClientKeysNotGenerated), this) /\
   get_sessionKey hash this =
     (Throw (SRPError ClientKeysNotGenerated), this)) /\
  (_A this = 0 ->
   get_publicKey this = (Throw (SRPError ClientKeysNotGeneratedYet), this)).
Proof.
  intros Hd. split; [|split; [|split]].
  - intros Hp.
    unfold computeProof, get_sessionKey, throwIfDisposed, validateIdentitySet,
      bind, read, throw, ret.
    rewrite Hd, Hp. now split.
  - intros Hp HK Hmissing.
    assert (Hs : computeSharedSecret hash this =
                 (Throw (SRPError SaltAndServerKeyFirst), this)).
    { unfold computeSharedSecret, validateIdentitySet, bind, read, throw, ret.
      rewrite (string_is_empty_false _ Hp).
      destruct Hmissing as [-> | HB]; [reflexivity|].
      destruct (_salt this); [|reflexivity].
      destruct (_B this); [|reflexivity]. now rewrite HB. }
    unfold computeProof, get_sessionKey, throwIfDisposed, validateIdentitySet,
      bind, read, throw, ret.
    rewrite Hd, (string_is_empty_false _ Hp), HK. cbn [truthy_buffer negb].
    rewrite Hs. now split.
  - intros Hp HK Hsalt HB HA.
    assert (Hs : computeSharedSecret hash this =
                 (Throw (SRPError ClientKeysNotGenerated), this)).
    { unfold computeSharedSecret, validateIdentitySet, bind, read, throw, ret.
      rewrite (string_is_empty_false _ Hp).
      destruct (_salt this); [|congruence].
      destruct (_B this); [|discriminate]. rewrite HB. cbn [negb].
      now rewrite HA. }
    unfold computeProof, get_sessionKey, throwIfDisposed, validateIdentitySet,
      bind, read, throw, ret.
    rewrite Hd, (string_is_empty_false _ Hp), HK. cbn [truthy_buffer negb].
    rewrite Hs. now split.
  - intros HA. unfold get_publicKey, throwIfDisposed, bind, read, throw, ret.
    now rewrite Hd, HA.
Qed.

Lemma missing_prerequisites_are_reported_witness :
  computeProof (fun _ => [x01]) example_client =
    (Throw (SRPError SaltAndServerKeyFirst), example_client) /\
  get_publicKey example_client =
    (Throw (SRPError ClientKeysNotGeneratedYet), example_client).
Proof.
  destruct (missing_prerequisites_are_reported (fun _ => [x01])
              example_client eq_refl) as (_ & Hmissing & _ & Hpk).
  split.
  - apply Hmissing; [discriminate|reflexivity|now left].
  - apply Hpk. reflexivity.
Defined.

Lemma Buffer_fill_zero (buf : Buffer) :
  Buffer_fill buf 0 = repeat x00 (length buf).
Proof.
  unfold Buffer_fill. induction buf as [|b buf IH]; [reflexivity|].
  cbn [map length repeat]. now rewrite IH.
Qed.

(** X21.  What [dispose()] erases on a live client: the password, the
    private key [a], the salt, the shared secret [S] and the server key [B]
    are reset, and the session key buffer, when there is one, keeps its
    length and holds zero bytes only.  The user name, the public key [A], the
    multiplier [k] and the keys-generated flag are left as they were. *)
Theorem dispose_erases_secrets (this : SRPClient) :
  disposed this = false ->
  let d := snd (dispose this) in
  password d = ""%string /\ _a d = 0 /\ _salt d = None /\ _S d = None /\
  _B d = None /\
  _K d = option_map (fun K => repeat x00 (length K)) (_K this) /\
  username d = username this /\ _A d = _A this /\ k d = k this /\
  keysGenerated d = keysGenerated this.
Proof.
  intros Hd. cbv zeta. rewrite dispose_live by assumption. cbn [snd].
  destruct (_K this) as [K|] eqn:HK; (repeat split; try reflexivity).
  - cbn [_K with_disposed with_B with_S with_salt with_K option_map].
    now rewrite Buffer_fill_zero.
  - exact HK.
Qed.

Lemma dispose_erases_secrets_witness :
  let d := snd (dispose (with_K (Some [x11; x22; x33]) example_ready_client)) in
  _K d = Some [x00; x00; x00] /\ _A d = 5 /\ password d = ""%string.
Proof.
  destruct (dispose_erases_secrets
              (with_K (Some [x11; x22; x33]) example_ready_client) eq_refl)
    as (Hp & _ & _ & _ & _ & HK & _ & HA & _).
  exact (conj HK (conj HA Hp)).
Defined.

Lemma generateClientKeysIfReady_touches_keys_only (randomBytes : RandomSource)
    (this : SRPClient) :
  let this' := snd (generateClientKeysIfReady randomBytes this) in
  this' = with_keysGenerated (keysGenerated this')
            (with_A (_A this') (with_a (_a this') this)).
Proof.
  cbv zeta.
  unfold generateClientKeysIfReady, generateClientKeys, validateIdentitySet,
    bind, read, throw, ret, update.
  destruct (truthy_buffer (_salt this) && truthy_bigint (_B this) &&
            negb (keysGenerated this));
    [|destruct this; reflexivity].
  destruct (string_is_empty (password this)); [destruct this; reflexivity|].
  pose proof (generateClientKeys_loop_frame randomBytes
                (Z.to_nat MAX_KEY_GENERATION_ATTEMPTS) 0 this) as Hframe.
  cbv zeta in Hframe.
  destruct (generateClientKeys_loop randomBytes
              (Z.to_nat MAX_KEY_GENERATION_ATTEMPTS) 0 this) as [[[]|e] st'];
    cbn [snd] in *; rewrite Hframe at 1; rewrite Hframe;
    destruct this; reflexivity.
Qed.

(** X22.  The session key is computed once: on a live client that holds an
    identity and a session key [K], the [sessionKey] getter keeps returning
    the same [K] after a later [setIdentity], [salt] or [serverPublicKey]
    assignment, accepted or not; the key is not derived again from the new
    values. *)
Theorem session_key_is_never_recomputed
    (hash : Buffer -> Buffer) (this : SRPClient) (K : Buffer) :
  disposed this = false ->
  password this <> ""%string ->
  _K this = Some K ->
  (forall user pass,
     fst (get_sessionKey hash (snd (setIdentity user pass this))) = Ok K) /\
  (forall randomBytes value,
     fst (get_sessionKey hash (snd (set_salt randomBytes value this))) =
     Ok K) /\
  (forall randomBytes value,
     fst (get_sessionKey hash
            (snd (set_serverPublicKey randomBytes value this))) = Ok K).
Proof.
  intros Hd Hp HK.
  assert (Hcached : forall st,
             disposed st = false -> password st <> ""%string ->
             _K st = Some K -> fst (get_sessionKey hash st) = Ok K).
  { intros st Hd' Hp' HK'.
    unfold get_sessionKey, throwIfDisposed, validateIdentitySet, bind, read,
      throw, ret.
    rewrite Hd', (string_is_empty_false _ Hp'), HK'. cbn [truthy_buffer negb].
    now rewrite HK'. }
  assert (Hgen : forall randomBytes st,
             disposed st = false -> password st <> ""%string ->
             _K st = Some K ->
             fst (get_sessionKey hash
                    (snd (generateClientKeysIfReady randomBytes st))) = Ok K).
  { intros randomBytes st Hd' Hp' HK'.
    apply Hcached;
      rewrite generateClientKeysIfReady_touches_keys_only; assumption. }
  split; [|split].
  - intros user pass.
    unfold setIdentity, throwIfDisposed, bind, read, throw, ret, update.
    rewrite Hd.
    destruct (string_is_empty (trim user)); [now apply Hcached|].
    destruct (string_is_empty pass) eqn:Hpass; [now apply Hcached|].
    apply Hcached; [exact Hd| |exact HK].
    cbn [snd password with_identity]. intros ->. discriminate Hpass.
  - intros randomBytes value.
    unfold set_salt, throwIfDisposed, bind, read, throw, ret, update.
    rewrite Hd.
    destruct (Buffer_length value =? 0); [now apply Hcached|].
    now apply Hgen.
  - intros randomBytes value.
    unfold set_serverPublicKey, throwIfDisposed, bind, read, throw, ret, update.
    rewrite Hd.
    destruct (negb (Buffer_length value =? SRP_KEY_LENGTH_BYTES));
      [now apply Hcached|].
    destruct ((bufferToBigInt value <=? ONE) ||
              (bufferToBigInt value >=? N_MINUS_ONE)); [now apply Hcached|].
    destruct (Z.rem (bufferToBigInt value) N =? ZERO); [now apply Hcached|].
    now apply Hgen.
Qed.

Lemma session_key_is_never_recomputed_witness :
  fst (get_sessionKey (fun _ => [x01])
         (snd (set_salt example_random [x09]
                 (with_K (Some [x11; x22]) example_ready_client)))) =
  Ok [x11; x22].
Proof.
  destruct (session_key_is_never_recomputed (fun _ => [x01])
              (with_K (Some [x11; x22]) example_ready_client) [x11; x22]
              eq_refl ltac:(discriminate) eq_refl) as (_ & Hsalt & _).
  apply Hsalt.
Defined.

(** X23.  How a [salt] assignment fails on a live client: an empty salt is
    rejected and nothing changes; a non-empty salt is stored before the keys
    are generated, so when the server key is there and the key generation
    fails, for want of a password or of an acceptable draw among 100, the
    error is raised with the new salt in place, no keys flagged and
    [isReady()] false. *)
Theorem salt_setter_failures
    (randomBytes : RandomSource) (this : SRPClient) (value : Buffer) :
  disposed this = false ->
  (value = [] ->
   set_salt randomBytes value this = (Throw (SRPError SaltCannotBeEmpty), this)) /\
  (value <> [] -> keysGenerated this = false ->
   truthy_bigint (_B this) = true -> password this = ""%string ->
   set_salt randomBytes value this =
     (Throw (SRPError PasswordMustBeSet), with_salt (Some value) this)) /\
  (value <> [] -> keysGenerated this = false ->
   truthy_bigint (_B this) = true -> password this <> ""%string ->
   (forall i, (i < 100)%nat -> valid_private_key (randomBytes i) = false) ->
   exists this',
     set_salt randomBytes value this =
       (Throw (SRPError (KeyGenerationFailed 100)), this') /\
     _salt this' = Some value /\ keysGenerated this' = false /\
     isReady this' = (Ok false, this')).
Proof.
  intros Hd. split; [|split].
  - intros ->.
    unfold set_salt, throwIfDisposed, bind, read, throw, ret.
    now rewrite Hd.
  - intros Hv Hkg HB Hp.
    set (st := with_salt (Some value) this).
    unfold set_salt, throwIfDisposed, generateClientKeysIfReady,
      generateClientKeys, validateIdentitySet, bind, read, throw, ret, update.
    rewrite Hd, Buffer_length_zero. destruct value; [congruence|].
    fold st.
    change (_salt st) with (Some (b :: value)).
    change (_B st) with (_B this).
    change (keysGenerated st) with (keysGenerated this).
    rewrite HB, Hkg. cbn [truthy_buffer andb negb].
    change (password st) with (password this).
    now rewrite Hp.
  - intros Hv Hkg HB Hp Hnone.
    set (st := with_salt (Some value) this).
    pose proof (generateClientKeys_loop_exhausted randomBytes Hnone
                  100 0 st ltac:(lia)) as Hfail.
    pose proof (generateClientKeys_loop_frame randomBytes 100 0 st) as Hframe.
    cbv zeta in Hframe.
    destruct (generateClientKeys_loop randomBytes 100 0 st) as [res st']
      eqn:Hloop.
    cbn [fst snd] in Hfail, Hframe. subst res.
    exists st'.
    assert (Hset : set_salt randomBytes value this =
                   (Throw (SRPError (KeyGenerationFailed 100)), st')).
    { unfold set_salt, throwIfDisposed, generateClientKeysIfReady,
        generateClientKeys, validateIdentitySet, bind, read, throw, ret, update.
      rewrite Hd, Buffer_length_zero. destruct value; [congruence|].
      fold st.
      change (_salt st) with (Some (b :: value)).
      change (_B st) with (_B this).
      change (keysGenerated st) with (keysGenerated this).
      rewrite HB, Hkg. cbn [truthy_buffer andb negb].
      change (password st) with (password this).
      rewrite (string_is_empty_false _ Hp).
      change (Z.to_nat MAX_KEY_GENERATION_ATTEMPTS) with 100%nat.
      now rewrite Hloop. }
    split; [exact Hset|].
    rewrite Hframe.
    split; [reflexivity|]. split; [exact Hkg|].
    unfold isReady, bind, read, ret.
    cbn [disposed _salt _B keysGenerated with_A with_a st with_salt].
    now rewrite Hkg, andb_false_r, andb_false_r.
Qed.

Lemma salt_setter_failures_witness :
  exists this',
    set_salt (fun _ => repeat x00 32) [x05]
      (with_B (Some 7) example_client) =
      (Throw (SRPError (KeyGenerationFailed 100)), this') /\
    _salt this' = Some [x05] /\ keysGenerated this' = false /\
    isReady this' = (Ok false, this').
Proof.
  destruct (salt_setter_failures (fun _ => repeat x00 32)
              (with_B (Some 7) example_client) [x05] eq_refl) as (_ & _ & H).
  apply H.
  - discriminate.
  - reflexivity.
  - reflexivity.
  - discriminate.
  - intros i _. vm_compute. reflexivity.
Defined.

(** X24.  A valid server key that arrives after the salt, on a live client
    with an identity and a source of randomness that offers an acceptable
    private key within 100 draws, is stored and triggers the key generation:
    the client becomes ready, [A = g^a mod N] lies in [(1, N - 1)], and the
    [publicKey] getter returns the 384-byte encoding of [A]. *)
Theorem valid_server_key_makes_client_ready (randomBytes : RandomSource)
    (this : SRPClient) (value salt : Buffer) :
  disposed this = false ->
  password this <> ""%string ->
  keysGenerated this = false ->
  _salt this = Some salt ->
  Buffer_length value = SRP_KEY_LENGTH_BYTES ->
  1 < bufferToBigInt value < N - 1 ->
  (exists i, (i < 100)%nat /\ valid_private_key (randomBytes i) = true) ->
  exists this',
    set_serverPublicKey randomBytes value this = (Ok tt, this') /\
    this' = with_keysGenerated true
              (with_A (_A this') (with_a (_a this')
                 (with_B (Some (bufferToBigInt value)) this))) /\
    1 < _A this' < N - 1 /\
    _A this' = modPow g (_a this') N /\
    isReady this' = (Ok true, this') /\
    get_publicKey this' = (Ok (be_bytes 384 (_A this')), this').
Proof. apply valid_server_key_generates_keys. Qed.

Lemma valid_server_key_makes_client_ready_witness :
  exists this',
    set_serverPublicKey example_random (be_bytes 384 7)
      (with_salt (Some [x05]) example_client) = (Ok tt, this') /\
    this' = with_keysGenerated true
              (with_A (_A this') (with_a (_a this')
                 (with_B (Some (bufferToBigInt (be_bytes 384 7)))
                    (with_salt (Some [x05]) example_client)))) /\
    1 < _A this' < N - 1 /\
    _A this' = modPow g (_a this') N /\
    isReady this' = (Ok true, this') /\
    get_publicKey this' = (Ok (be_bytes 384 (_A this')), this').
Proof.
  apply (valid_server_key_makes_client_ready example_random
           (with_salt (Some [x05]) example_client) (be_bytes 384 7) [x05]).
  - reflexivity.
  - discriminate.
  - reflexivity.
  - reflexivity.
  - vm_compute. reflexivity.
  - vm_compute. split; reflexivity.
  - exists 0%nat. split; [lia|vm_compute; reflexivity].
Defined.

End SRPMore.

(** ** Syslog service *)

Module SyslogFacts.
Import Syslog.

Lemma trimStart_units_nil (str : JSString) :
  trimStart_units str = [] <-> Forall (fun c => is_trimmed_unit c = true) str.
Proof.
  induction str as [|c str IH]; cbn [trimStart_units].
  - split; [constructor|reflexivity].
  - destruct (is_trimmed_unit c) eqn:Hc.
    + rewrite IH. split; [now constructor|now inversion 1].
    + split; [discriminate|]. inversion 1. congruence.
Qed.

Lemma trimStart_units_last (str : JSString) (c : Z) :
  is_trimmed_unit c = false -> trimStart_units (str ++ [c]) <> [].
Proof.
  intros Hc. induction str as [|a str IH]; cbn [app trimStart_units].
  - now rewrite Hc.
  - destruct (is_trimmed_unit a); [exact IH|discriminate].
Qed.

(** A string trims to nothing exactly when all of it is white space. *)
Lemma trim_units_nil (str : JSString) :
  trim_units str = [] <-> Forall (fun c => is_trimmed_unit c = true) str.
Proof.
  rewrite <- trimStart_units_nil. unfold trim_units. split.
  - intros H. apply (f_equal (@rev Z)) in H. rewrite rev_involutive in H.
    cbn [rev] in H.
    destruct (trimStart_units str) as [|c rest] eqn:E; [reflexivity|].
    exfalso. cbn [rev] in H.
    assert (Hc : is_trimmed_unit c = false).
    { destruct str as [|a str]; [discriminate|]. cbn [trimStart_units] in E.
      revert E. clear. revert a.
      induction str as [|b str IH]; intros a; cbn [trimStart_units].
      - destruct (is_trimmed_unit a) eqn:Ha; [discriminate|].
        now intros [= <- _].
      - destruct (is_trimmed_unit a) eqn:Ha; [apply IH|].
        now intros [= <- _]. }
    now apply (trimStart_units_last (rev rest) c Hc).
  - intros ->. reflexivity.
Qed.

Section Service.

Variable toString : Buffer -> JSString.

(** X25.  A text packet gives a message exactly when its decoded payload has
    a character from [!] (0x21) to [~] (0x7E); the message emitted is then
    the decoded payload without the characters outside the range from space
    to [~], in their order; otherwise nothing is emitted.  [emitTextMessage]
    does the same. *)
Theorem processTextPacket_emits_printable_text (payload : Buffer) :
  let message := filter (fun c => (0x20 <=? c) && (c <=? 0x7e))
                   (toString payload) in
  Forall (fun c => 0x20 <= c <= 0x7e) message /\
  processTextPacket toString payload =
    (if existsb (fun c => (0x21 <=? c) && (c <=? 0x7e)) (toString payload)
     then [MessageEvent message] else []) /\
  emitTextMessage toString payload = processTextPacket toString payload.
Proof.
  cbv zeta.
  set (printable := fun c : Z => (0x20 <=? c) && (c <=? 0x7e)).
  assert (Hext : extractPrintableText toString payload =
                 filter printable (toString payload)).
  { unfold extractPrintableText. apply filter_ext. intros c.
    unfold matches_NON_PRINTABLE_ASCII_REGEX, printable.
    now rewrite negb_involutive. }
  split; [|split; [|reflexivity]].
  - apply Forall_forall. intros c Hc. apply filter_In in Hc as [_ Hc].
    unfold printable in Hc. lia.
  - unfold processTextPacket, emitMessage. cbv zeta. rewrite Hext.
    destruct (existsb (fun c => (0x21 <=? c) && (c <=? 0x7e))
                (toString payload)) eqn:Hex.
    + apply existsb_exists in Hex as (c & Hin & Hc).
      destruct (trim_units (filter printable (toString payload))) eqn:Ht;
        [|reflexivity].
      exfalso. apply trim_units_nil in Ht. rewrite Forall_forall in Ht.
      assert (Hws : is_trimmed_unit c = true).
      { apply Ht. apply filter_In. split; [exact Hin|]. unfold printable. lia. }
      unfold is_trimmed_unit in Hws. lia.
    + assert (Ht : trim_units (filter printable (toString payload)) = []).
      { apply trim_units_nil. apply Forall_forall. intros c Hc.
        apply filter_In in Hc as [Hin Hc].
        assert (Hno : (0x21 <=? c) && (c <=? 0x7e) = false).
        { destruct ((0x21 <=? c) && (c <=? 0x7e)) eqn:E; [|reflexivity].
          assert (existsb (fun c => (0x21 <=? c) && (c <=? 0x7e))
                    (toString payload) = true)
            by (apply existsb_exists; now exists c).
          congruence. }
        unfold printable in Hc. unfold is_trimmed_unit.
        assert (c = 0x20) as -> by lia. reflexivity. }
      now rewrite Ht.
Qed.

Lemma Qgt_half_count (c n : Z) :
  negb (QArith_base.Qle_bool (QArith_base.inject_Z c)
          (QArith_base.Qmult (QArith_base.inject_Z n) MIN_PRINTABLE_RATIO)) =
  (n <? 2 * c).
Proof.
  unfold QArith_base.Qle_bool, QArith_base.Qmult, QArith_base.inject_Z,
    MIN_PRINTABLE_RATIO. cbn [QArith_base.Qnum QArith_base.Qden].
  change (Z.pos (1 * 2)) with 2. change (Z.pos 1) with 1.
  destruct (Z.leb_spec (c * 2) (n * 1 * 1)); destruct (Z.ltb_spec n (2 * c));
    (reflexivity || lia).
Qed.

Lemma Qgt_half_ratio (c n : Z) :
  0 < n ->
  negb (QArith_base.Qle_bool
          (QArith_base.Qdiv (QArith_base.inject_Z c) (QArith_base.inject_Z n))
          MIN_PRINTABLE_RATIO) =
  (n <? 2 * c).
Proof.
  intros Hn. destruct n as [|p|p]; try lia.
  unfold QArith_base.Qle_bool, QArith_base.Qdiv, QArith_base.Qmult,
    QArith_base.Qinv, QArith_base.inject_Z, MIN_PRINTABLE_RATIO.
  cbn [QArith_base.Qnum QArith_base.Qden].
  change (Z.pos (1 * p)) with (Z.pos p).
  destruct (Z.leb_spec (c * 1 * 2) (1 * Z.pos p));
    destruct (Z.ltb_spec (Z.pos p) (2 * c)); (reflexivity || lia).
Qed.

Lemma printable_loop_spec (n : Z) (codes : JSString) (count : Z) :
  let threshold :=
    QArith_base.Qmult (QArith_base.inject_Z n) MIN_PRINTABLE_RATIO in
  2 * count <= n ->
  match printable_loop codes threshold count with
  | inl result => result = true /\ n < 2 * (count + count_printable codes)
  | inr final => final = count + count_printable codes /\ 2 * final <= n
  end.
Proof.
  cbv zeta. revert count.
  induction codes as [|c codes IH]; intros count Hcount;
    cbn [printable_loop].
  - change (count_printable []) with 0. lia.
  - unfold ASCII_PRINTABLE_MIN, ASCII_PRINTABLE_MAX.
    assert (Hcp : count_printable (c :: codes) =
                  (if (0x20 <=? c) && (c <=? 0x7e) then 1 else 0) +
                  count_printable codes).
    { unfold count_printable. cbn [filter].
      destruct ((0x20 <=? c) && (c <=? 0x7e)); cbn [length]; lia. }
    assert (Hpos : 0 <= count_printable codes)
      by (unfold count_printable; lia).
    replace (c >=? 32) with (0x20 <=? c)
      by (destruct (Z.geb_spec c 32); destruct (Z.leb_spec 0x20 c); lia).
    rewrite Hcp.
    destruct ((0x20 <=? c) && (c <=? 0x7e)).
    + rewrite Qgt_half_count.
      destruct (Z.ltb_spec n (2 * (count + 1))) as [Hgt|Hle].
      * split; [reflexivity|lia].
      * specialize (IH (count + 1) Hle). revert IH.
        destruct (printable_loop codes _ (count + 1));
          intros [H1 H2]; split; first [exact H1 | lia].
    + specialize (IH count Hcount). revert IH.
      destruct (printable_loop codes _ count);
        intros [H1 H2]; split; first [exact H1 | lia].
Qed.

(** X26.  [isMostlyPrintable] answers [true] exactly when more than half of
    the code units of the decoded buffer are in the range from space to [~];
    an empty string and a string that is printable by exactly one half give
    [false]. *)
Theorem isMostlyPrintable_strict_majority (buffer : Buffer) :
  isMostlyPrintable toString buffer =
  (Z.of_nat (length (toString buffer)) <?
   2 * count_printable (toString buffer)).
Proof.
  unfold isMostlyPrintable.
  destruct (toString buffer) as [|c str] eqn:E; [reflexivity|].
  cbv zeta.
  pose proof (printable_loop_spec (Z.of_nat (length (c :: str))) (c :: str) 0
                ltac:(lia)) as Hloop.
  cbv zeta in Hloop. revert Hloop.
  destruct (printable_loop (c :: str) _ 0) as [result|final]; intros Hloop.
  - destruct Hloop as [-> Hgt]. symmetry. apply Z.ltb_lt. lia.
  - destruct Hloop as [-> Hle].
    rewrite Qgt_half_ratio by (cbn [length]; lia). reflexivity.
Qed.

End Service.

End SyslogFacts.
